(** * A shallow embedding of the Redis-style server (Python) and its properties

    The development follows the layout of the repository:

    - [Py]          the Python builtins the code relies on (str/bytes, int(),
                    slicing, comparison of strings, re.search of one pattern);
    - [Resp]        src/redis/resp.py, the RESP encoder and decoder;
    - [Stream]      src/redis/stream.py, the stream store;
    - [Persistence] src/redis/persistence.py, the RDB loader;
    - [Database]    src/redis/database.py, the store, replicas and triggers;
    - [Command]     src/redis/command.py, dispatch and the verbs.

    Conventions.  A Python [str] is a Rocq [string] whose characters are code
    points below 256; [bytes] is a [list Byte.byte].  A Python exception is a
    value of [exn] carried by [result].  A clock reading [time.time() * 1000]
    (a float in the source) is passed in as an integer number of
    milliseconds.  Loops that the source writes as [while] take a fuel. *)

From Stdlib Require Import ZArith Strings.Byte Strings.Ascii Strings.String.
From Stdlib Require Import Numbers.DecimalString Numbers.DecimalZ Numbers.DecimalPos.
From stdpp Require Import base gmap strings list fin_maps.

Local Open Scope Z_scope.

(* ===================================================================== *)
(** * Exceptions and results *)
(* ===================================================================== *)

Inductive exn : Set :=
  | ValueError | AssertionError | IndexError | TypeError | AttributeError
  | UnicodeDecodeError | StructError.

Inductive result (A : Type) : Type :=
  | Ok (a : A)
  | Raise (e : exn).
Arguments Ok {A} a.
Arguments Raise {A} e.

#[global] Instance result_ret : MRet result := fun A a => Ok a.

#[global] Instance result_bind : MBind result := fun A B k r =>
  match r with
  | Ok a => k a
  | Raise e => Raise e
  end.

Definition of_option {A} (e : exn) (o : option A) : result A :=
  match o with
  | Some a => Ok a
  | None => Raise e
  end.

(** Python values that reach the wire or the store: [None], a [str], an
    [int]. *)
Inductive pyval : Set :=
  | PNone
  | PStr (s : string)
  | PInt (n : Z).

#[global] Instance pyval_eq_dec : EqDecision pyval.
Proof. solve_decision. Defined.

#[global] Instance pyval_countable : Countable pyval.
Proof.
  refine (inj_countable'
    (fun v => match v with
              | PNone => inl tt
              | PStr s => inr (inl s)
              | PInt n => inr (inr n)
              end)
    (fun x => match x with
              | inl _ => PNone
              | inr (inl s) => PStr s
              | inr (inr n) => PInt n
              end) _).
  intros [| |]; reflexivity.
Defined.

(* ===================================================================== *)
(** * Python builtins *)
(* ===================================================================== *)

Module Py.

Abbreviation bytes := (list byte).

(** A bytes literal [b'...'] with ASCII content. *)
Definition b (s : string) : bytes := list_byte_of_string s.

Definition CRLF : bytes := [x0d; x0a].

(** ** Characters and code points *)

Definition ord (c : ascii) : N := N_of_ascii c.

Definition is_ascii_char (c : ascii) : bool := (ord c <? 128)%N.

Fixpoint isascii (s : string) : bool :=
  match s with
  | EmptyString => true
  | String c s' => is_ascii_char c && isascii s'
  end.

Definition is_digit (c : ascii) : bool :=
  ((48 <=? ord c) && (ord c <=? 57))%N.

(** ** [str.encode()] and [bytes.decode()]: UTF-8 on code points below 256.
    One byte below 128, two bytes [110000xx 10xxxxxx] from 128 to 255. *)

Definition encode_char (c : ascii) : bytes :=
  if is_ascii_char c then [byte_of_ascii c]
  else [byte_of_ascii (ascii_of_N (192 + ord c / 64));
        byte_of_ascii (ascii_of_N (128 + ord c mod 64))].

Fixpoint encode (s : string) : bytes :=
  match s with
  | EmptyString => []
  | String c s' => encode_char c ++ encode s'
  end.

(** Decoding raises [UnicodeDecodeError] on malformed input.  A well-formed
    sequence for a code point above 255 has no image in [string]; the model
    answers [UnicodeDecodeError] there as well. *)
Fixpoint decode (bs : bytes) : result string :=
  match bs with
  | [] => Ok EmptyString
  | x :: bs' =>
      let n := Byte.to_N x in
      if (n <? 128)%N then
        s ← decode bs'; Ok (String (ascii_of_byte x) s)
      else if ((n =? 194) || (n =? 195))%N then
        match bs' with
        | y :: bs'' =>
            let m := Byte.to_N y in
            if ((128 <=? m) && (m <? 192))%N then
              s ← decode bs'';
              Ok (String (ascii_of_N ((n - 192) * 64 + (m - 128))) s)
            else Raise UnicodeDecodeError
        | [] => Raise UnicodeDecodeError
        end
      else Raise UnicodeDecodeError
  end.

(** ** [str(n)] and [int(s)] *)

Definition str_of_int (n : Z) : string :=
  NilZero.string_of_int (Z.to_int n).

(** [int(s)] for an optional sign followed by decimal digits.  Python also
    accepts surrounding white space and underscores between digits; such
    inputs are answered with [ValueError] here. *)
Definition int (s : string) : result Z :=
  match s with
  | String "+" s' =>
      of_option ValueError
        (option_map (fun d => Z.of_int (Decimal.Pos d)) (NilZero.uint_of_string s'))
  | _ => of_option ValueError (option_map Z.of_int (NilZero.int_of_string s))
  end.

(** [str(x)] for the values of [pyval]. *)
Definition str (v : pyval) : string :=
  match v with
  | PNone => "None"
  | PStr s => s
  | PInt n => str_of_int n
  end.

(** ** Comparison of [str]: lexicographic on code points. *)

Definition str_le (s t : string) : bool := String.leb s t.
Definition str_lt (s t : string) : bool := String.ltb s t.
Definition str_gt (s t : string) : bool := String.ltb t s.

(** ** Slices [x[:n]] and [x[n:]] with Python's treatment of negative and
    out-of-range bounds. *)

Definition clamp {A} (l : list A) (n : Z) : nat :=
  let len := Z.of_nat (length l) in
  let i := if n <? 0 then Z.max 0 (n + len) else Z.min n len in
  Z.to_nat i.

Definition slice_to {A} (l : list A) (n : Z) : list A := take (clamp l n) l.
Definition slice_from {A} (l : list A) (n : Z) : list A := drop (clamp l n) l.

(** ** [bytes.startswith], [in], [bytes.index] *)

Fixpoint startswith (buf pre : bytes) {struct pre} : bool :=
  match pre, buf with
  | [], _ => true
  | p :: pre', x :: buf' => Byte.eqb p x && startswith buf' pre'
  | _ :: _, [] => false
  end.

(** [x == y] on bytes *)
Fixpoint bytes_eqb (x y : bytes) : bool :=
  match x, y with
  | [], [] => true
  | a :: x', c :: y' => Byte.eqb a c && bytes_eqb x' y'
  | _, _ => false
  end.

Fixpoint find (buf sub : bytes) : option nat :=
  if startswith buf sub then Some 0%nat
  else match buf with
       | [] => None
       | _ :: buf' => S <$> find buf' sub
       end.

Definition contains (buf sub : bytes) : bool :=
  match find buf sub with Some _ => true | None => false end.

(** [buf.index(sub)] raises [ValueError] when [sub] does not occur. *)
Definition index (buf sub : bytes) : result nat :=
  of_option ValueError (find buf sub).

(** ** [str.upper()].  ASCII letters are upper-cased and other code points
    are kept.  On code points below 256 this agrees with Python whenever the
    result is compared to a word made of ASCII letters that has no double S,
    which is the only use the code makes of it. *)

Definition upper_char (c : ascii) : ascii :=
  if ((97 <=? ord c) && (ord c <=? 122))%N then ascii_of_N (ord c - 32) else c.

Fixpoint upper (s : string) : string :=
  match s with
  | EmptyString => EmptyString
  | String c s' => String (upper_char c) (upper s')
  end.

(** ** [s.split(sep)] on a one-character separator. *)

Fixpoint split_aux (sep : ascii) (cur : string) (s : string) : list string :=
  match s with
  | EmptyString => [cur]
  | String c s' =>
      if Ascii.eqb c sep then cur :: split_aux sep EmptyString s'
      else split_aux sep (cur +:+ String c EmptyString) s'
  end.

Definition split (sep : ascii) (s : string) : list string :=
  split_aux sep EmptyString s.

(** [a, b = s.split(sep)]: unpacking raises [ValueError] unless there are
    exactly two parts. *)
Definition split2 (sep : ascii) (s : string) : result (string * string) :=
  match split sep s with
  | [a; b] => Ok (a, b)
  | _ => Raise ValueError
  end.

(** [' '.join(l)] *)
Fixpoint join (sep : string) (l : list string) : string :=
  match l with
  | [] => EmptyString
  | [x] => x
  | x :: l' => x +:+ sep +:+ join sep l'
  end.

(** ** [re.search] for the one pattern of the code, a group of zero or more
    digits followed by a dash and a literal star; the result is [group(1)].

    The leftmost match starts at the beginning of the longest run of digits
    that ends where the first occurrence of [-*] begins: the scan keeps the
    run of digits read since the last non-digit. *)

Fixpoint search_ts_star_aux (run : string) (s : string) : option string :=
  match s with
  | EmptyString => None
  | String c s' =>
      if Ascii.eqb c "-" && String.prefix "*" s' then Some run
      else if is_digit c then search_ts_star_aux (run +:+ String c EmptyString) s'
      else search_ts_star_aux EmptyString s'
  end.

Definition search_ts_star (s : string) : option string :=
  search_ts_star_aux EmptyString s.

(** ** Truth values *)

Definition truthy_str (s : string) : bool := negb (String.eqb s "").

(** An optional number ([None], an [int] or a [float]) is false when it is
    [None] or zero. *)
Definition truthy_num (o : option Z) : bool :=
  match o with
  | Some n => negb (n =? 0)
  | None => false
  end.

End Py.

(* ===================================================================== *)
(** * src/redis/resp.py *)
(* ===================================================================== *)

(** What [resp.array] is given: strings, numbers and [None] (encoded as bulk
    strings) and nested lists (encoded as arrays). *)
#[warnings="-register-all"]
Inductive item : Type :=
  | IVal (v : pyval)
  | IList (l : list item).

Definition istr (s : string) : item := IVal (PStr s).

Module Resp.
Import Py.

Definition crlf : string := String "013" (String "010" EmptyString).

Definition integer (n : Z) : bytes :=
  encode (":" +:+ str_of_int n +:+ crlf).

Definition simple_string (s : string) : bytes :=
  encode ("+" +:+ s +:+ crlf).

Definition simple_error (s : string) : bytes :=
  encode ("-ERR " +:+ s +:+ crlf).

Definition error_unknown_command (array : list string) : bytes :=
  simple_error ("Unknown command " +:+ join " " array).

(** [len(string)] counts code points, the bytes that follow are the UTF-8
    encoding. *)
Definition bulk_string (v : pyval) : bytes :=
  match v with
  | PNone => encode ("$-1" +:+ crlf)
  | _ =>
      let string := str v in
      encode ("$" +:+ str_of_int (Z.of_nat (String.length string)) +:+ crlf
              +:+ string +:+ crlf)
  end.

Fixpoint array_item (it : item) : bytes :=
  match it with
  | IVal v => bulk_string v
  | IList items =>
      encode ("*" +:+ str_of_int (Z.of_nat (length items)) +:+ crlf)
      ++ mjoin (map array_item items)
  end.

Definition array (items : list item) : bytes := array_item (IList items).

(** ** The decoder *)

Definition _read_token (buffer : bytes) : result (bytes * bytes) :=
  sep ← index buffer CRLF;
  Ok (take sep buffer, drop (sep + 2)%nat buffer).

Definition _read_bulk_string (buffer : bytes) : result (string * bytes) :=
  '(raw_length, buffer) ← _read_token buffer;
  if negb (startswith raw_length (b "$")) then Raise AssertionError else
  digits ← decode (slice_from raw_length 1);
  length ← int digits;
  let string := slice_to buffer length in
  s ← decode string;
  Ok (s, slice_from buffer (length + 2)).

(** The body of [for i in range(length)] in [_read_array]. *)
Fixpoint _read_array_loop (n : nat) (buffer : bytes)
  : result (list string * bytes) :=
  match n with
  | O => Ok ([], buffer)
  | S n' =>
      '(string, buffer) ← _read_bulk_string buffer;
      '(array, buffer) ← _read_array_loop n' buffer;
      Ok (string :: array, buffer)
  end.

Definition _read_array (buffer : bytes) : result (list string * bytes) :=
  '(raw_length, buffer) ← _read_token (slice_from buffer 1);
  digits ← decode raw_length;
  length ← int digits;
  _read_array_loop (Z.to_nat length) buffer.

Definition _read_rdb (buffer : bytes) : result (bytes * bytes) :=
  '(raw_length, buffer) ← _read_token buffer;
  if negb (startswith raw_length (b "$")) then Raise AssertionError else
  digits ← decode (slice_from raw_length 1);
  length ← int digits;
  Ok (slice_to buffer length, slice_from buffer length).

(** How a run of the generator [parse] ends. *)
Inductive parse_end : Set :=
  | Finished
  | Raised (e : exn)
  | OutOfFuel.

Section Parse.
(** [Command.parse], which [parse] applies to every array it reads. *)
Context {C : Type} (command_parse : list string -> result C).

(** The commands yielded, in order, and how the loop ends.  One unit of
    fuel is one test of [while buffer]. *)
Fixpoint parse (fuel : nat) (buffer : bytes) : list C * parse_end :=
  match fuel with
  | O => ([], OutOfFuel)
  | S fuel' =>
      match buffer with
      | [] => ([], Finished)
      | _ :: _ =>
          if startswith buffer (b "*") then
            match _read_array buffer with
            | Raise e => ([], Raised e)
            | Ok (array, buffer') =>
                match command_parse array with
                | Raise e => ([], Raised e)
                | Ok c =>
                    let '(cs, e) := parse fuel' buffer' in (c :: cs, e)
                end
            end
          else if startswith buffer (b "+") then
            match _read_token buffer with
            | Raise e => ([], Raised e)
            | Ok (_, buffer') => parse fuel' buffer'
            end
          else if contains buffer (b "REDIS") then
            match _read_rdb buffer with
            | Raise e => ([], Raised e)
            | Ok (_, buffer') => parse fuel' buffer'
            end
          else parse fuel' buffer
      end
  end.
End Parse.

End Resp.

(* ===================================================================== *)
(** * src/app/utils.py *)
(* ===================================================================== *)

Module Utils.
Import Py.

Definition inc_id (id : string) : result string :=
  '(ts, seq) ← split2 "-" id;
  n ← int seq;
  Ok (ts +:+ "-" +:+ str_of_int (n + 1)).

(** [zip(array[:half], array[half:])] *)
Definition to_pairs {A} (array : list A) : list (A * A) :=
  let half := (length array / 2)%nat in
  zip (take half array) (drop half array).

End Utils.

(* ===================================================================== *)
(** * asyncio.Event *)
(* ===================================================================== *)

(** An event is an object shared by the task that waits on it and by the
    trigger lists of the database.  Events live in a heap, a list of flags,
    and are named by their position in it. *)
Module Event.

Definition t := nat.
Definition heap := list bool.

Definition new (h : heap) : t * heap := (length h, h ++ [false]).
Definition set (e : t) (h : heap) : heap := <[e := true]> h.
Definition is_set (e : t) (h : heap) : bool := default false (h !! e).

End Event.

(* ===================================================================== *)
(** * src/redis/stream.py *)
(* ===================================================================== *)

Module Stream.
Import Py.

(** An entry is the list [[id, fields]]. *)
Definition entry : Type := string * list string.

Record StreamTrigger := {
  st_event : Event.t;
  st_conditions : list (string * string)
}.

Definition new_trigger (array : list string) (h : Event.heap)
  : StreamTrigger * Event.heap :=
  let '(e, h) := Event.new h in
  ({| st_event := e; st_conditions := Utils.to_pairs array |}, h).

Definition err_zero : string :=
  "The ID specified in XADD must be greater than 0-0".
Definition err_top : string :=
  "The ID specified in XADD is equal or smaller than the target stream top item".

(** [last_entry_id] and, when it is true, its two parts [last_ts] and
    [last_seq]. *)
Definition last_parts (entries : list entry)
  : result (option (string * string * string)) :=
  match last entries with
  | Some (last_entry_id, _) =>
      if truthy_str last_entry_id then
        '(last_ts, last_seq) ← split2 "-" last_entry_id;
        Ok (Some (last_entry_id, last_ts, last_seq))
      else Ok None
  | None => Ok None
  end.

(** The id under which the entry is appended, or [None] when the id is
    rejected as not above the top item.  [now] is [time.time() * 1000]. *)
Definition resolve (now : Z) (id : string) (entries : list entry)
  : result (option string) :=
  last ← last_parts entries;
  match search_ts_star id with
  | Some ts =>
      match last with
      | None =>
          Ok (Some (ts +:+ "-" +:+ str_of_int (if String.eqb ts "0" then 1 else 0)))
      | Some (_, last_ts, last_seq) =>
          seq ← (if str_gt ts last_ts then Ok 0
                 else n ← int last_seq; Ok (n + 1));
          Ok (Some (ts +:+ "-" +:+ str_of_int seq))
      end
  | None =>
      if String.eqb id "*" then
        match last with
        | None => Ok (Some (str_of_int now +:+ "-0"))
        | Some (_, last_ts, last_seq) =>
            n ← int last_seq;
            Ok (Some (last_ts +:+ "-" +:+ str_of_int (n + 1)))
        end
      else
        match last with
        | Some (last_entry_id, _, _) =>
            if str_le id last_entry_id then Ok None else Ok (Some id)
        | None => Ok (Some id)
        end
  end.

(** [Stream.add].  [self.store[key]] on a [defaultdict(list)] installs an
    empty list under a missing key before anything else happens, so the
    store that comes back holds the key on every path. *)
Definition add (now : Z) (key : string) (entry : entry)
    (store : gmap string (list Stream.entry))
  : gmap string (list Stream.entry) * result bytes :=
  let id := entry.1 in
  let entries := default [] (store !! key) in
  let store := <[key := entries]> store in
  if String.eqb id "0-0" then (store, Ok (Resp.simple_error err_zero))
  else
    match resolve now id entries with
    | Raise e => (store, Raise e)
    | Ok None => (store, Ok (Resp.simple_error err_top))
    | Ok (Some id) =>
        (<[key := entries ++ [(id, entry.2)]]> store,
         Ok (Resp.bulk_string (PStr id)))
    end.

Definition read (key : string) (store : gmap string (list entry))
  : option (list entry) :=
  store !! key.

Definition test (start end_ : string) (entry : entry) : bool :=
  (String.eqb start "-" || str_le start entry.1)
  && (String.eqb end_ "+" || str_le entry.1 end_).

(** [filter(test, None)] raises [TypeError] when the key is missing. *)
Definition range (key start end_ : string) (store : gmap string (list entry))
  : result (list entry) :=
  match store !! key with
  | None => Raise TypeError
  | Some entries => Ok (List.filter (test start end_) entries)
  end.

(** An entry as [resp.array] sees it. *)
Definition entry_item (e : entry) : item :=
  IList [istr e.1; IList (map istr e.2)].

End Stream.

(* ===================================================================== *)
(** * Python [dict]: a finite map that remembers the order of insertion *)
(* ===================================================================== *)

Module Dict.
Section Dict.
Context {K V : Type} `{EqDecision K}.

Definition t := list (K * V).

(** [d.get(k)] *)
Fixpoint get (k : K) (d : list (K * V)) : option V :=
  match d with
  | [] => None
  | (k', v) :: d' => if decide (k = k') then Some v else get k d'
  end.

(** [d[k] = v]: a present key keeps its place. *)
Fixpoint set (k : K) (v : V) (d : list (K * V)) : list (K * V) :=
  match d with
  | [] => [(k, v)]
  | (k', v') :: d' =>
      if decide (k = k') then (k, v) :: d' else (k', v') :: set k v d'
  end.

(** [del d[k]] for a key that is present. *)
Fixpoint del (k : K) (d : list (K * V)) : list (K * V) :=
  match d with
  | [] => []
  | (k', v') :: d' =>
      if decide (k = k') then d' else (k', v') :: del k d'
  end.

Definition keys (d : list (K * V)) : list K := map fst d.

(** No key occurs twice; [set] and [del] preserve it. *)
Definition wf (d : list (K * V)) : Prop := NoDup (keys d).
End Dict.
End Dict.

(* ===================================================================== *)
(** * src/redis/models.py *)
(* ===================================================================== *)

(** A connection is known by the port of its peer.  What is written to its
    writer is recorded in the log [sent] of the database. *)
Record ReplicaConnection := {
  port : Z;
  replication_offset : Z
}.

Definition update_offset (n : Z) (r : ReplicaConnection) : ReplicaConnection :=
  {| port := port r; replication_offset := n |}.

Record WaitTrigger := {
  wt_event : Event.t;
  wt_num_replicas : Z;
  wt_master_offset : Z
}.

(* ===================================================================== *)
(** * src/redis/persistence.py *)
(* ===================================================================== *)

Module Persistence.
Import Py.

(** What [_read_length] returns: an [int], the string ['8 bit integer'],
    or [None]. *)
Inductive length_enc : Set :=
  | LInt (n : Z)
  | L8bit
  | LNone.

(** The loader: the unread part of the file, the fields of the object,
    and the store of the database it fills through [db.set]. *)
Record t := {
  file : bytes;
  aux : list (pyval * pyval);
  checksum : option bytes;
  db_size : option length_enc;
  expiry_size : option length_enc;
  db_number : option length_enc;
  version : Z;
  store : list (pyval * (pyval * option Z))
}.

Definition with_file (f : bytes) (p : t) : t :=
  {| file := f; aux := aux p; checksum := checksum p; db_size := db_size p;
     expiry_size := expiry_size p; db_number := db_number p;
     version := version p; store := store p |}.

(** [self.file.read(n)] *)
Definition read (n : nat) (p : t) : bytes * t :=
  (take n (file p), with_file (drop n (file p)) p).

Definition _verify_magic (p : t) : result t :=
  let '(magic, p) := read 5 p in
  if bytes_eqb magic (b "REDIS") then Ok p else Raise AssertionError.

Definition _set_version (p : t) : result t :=
  let '(raw, p) := read 4 p in
  version ← decode raw;
  n ← int version;
  Ok {| file := file p; aux := aux p; checksum := checksum p;
        db_size := db_size p; expiry_size := expiry_size p;
        db_number := db_number p; version := n; store := store p |}.

(** [struct.unpack('B', byte)[0]] *)
Definition unpack_B (byte : bytes) : result Z :=
  match byte with
  | [x] => Ok (Z.of_N (Byte.to_N x))
  | _ => Raise StructError
  end.

(** [struct.unpack('<Q', quadword)[0]] *)
Definition unpack_Q (quadword : bytes) : result Z :=
  if decide (length quadword = 8%nat) then
    Ok (foldr (fun x acc => Z.of_N (Byte.to_N x) + 256 * acc) 0 quadword)
  else Raise StructError.

Definition _read_length (p : t) : result (length_enc * t) :=
  let '(byte, p) := read 1 p in
  length ← unpack_B byte;
  let crumb := Z.shiftr length 6 in
  if crumb =? 0 then Ok (LInt length, p)
  else if crumb =? 3 then Ok (L8bit, p)
  else Ok (LNone, p).

Definition _read_string (p : t) : result (pyval * t) :=
  '(length, p) ← _read_length p;
  match length with
  | LInt n =>
      let '(raw, p) := read (Z.to_nat n) p in
      s ← decode raw;
      Ok (PStr s, p)
  | L8bit =>
      let '(byte, p) := read 1 p in
      n ← unpack_B byte;
      Ok (PInt n, p)
  | LNone => Ok (PNone, p)
  end.

Definition _set_aux (p : t) : result t :=
  '(key, p) ← _read_string p;
  '(value, p) ← _read_string p;
  Ok {| file := file p; aux := Dict.set key value (aux p);
        checksum := checksum p; db_size := db_size p;
        expiry_size := expiry_size p; db_number := db_number p;
        version := version p; store := store p |}.

Definition _set_resizedb (p : t) : result t :=
  '(n, p) ← _read_length p;
  '(m, p) ← _read_length p;
  Ok {| file := file p; aux := aux p; checksum := checksum p;
        db_size := Some n; expiry_size := Some m;
        db_number := db_number p; version := version p; store := store p |}.

Definition _set_selectdb (p : t) : result t :=
  '(n, p) ← _read_length p;
  Ok {| file := file p; aux := aux p; checksum := checksum p;
        db_size := db_size p; expiry_size := expiry_size p;
        db_number := Some n; version := version p; store := store p |}.

(** [self.db.set(key, value, px)] is [self.store[key] = (value, expiry)]. *)
Definition _set_kv_pair (px : option Z) (p : t) : result t :=
  '(key, p) ← _read_string p;
  '(value, p) ← _read_string p;
  Ok {| file := file p; aux := aux p; checksum := checksum p;
        db_size := db_size p; expiry_size := expiry_size p;
        db_number := db_number p; version := version p;
        store := Dict.set key (value, px) (store p) |}.

Definition _set_kv_pair_px (p : t) : result t :=
  let '(quadword, p) := read 8 p in
  timestamp ← unpack_Q quadword;
  let '(_, p) := read 1 p in
  _set_kv_pair (Some timestamp) p.

Definition _set_checksum (p : t) : t :=
  let '(sum, p) := read 8 p in
  {| file := file p; aux := aux p; checksum := Some sum;
     db_size := db_size p; expiry_size := expiry_size p;
     db_number := db_number p; version := version p; store := store p |}.

(** [_parse_next]; the flag tells whether [StopIteration] was raised.  An
    opcode outside the six cases, and the empty read at the end of the
    file, match nothing. *)
Definition _parse_next (p : t) : result (bool * t) :=
  let '(opcode, p) := read 1 p in
  match opcode with
  | [xfa] => p ← _set_aux p; Ok (false, p)
  | [xfb] => p ← _set_resizedb p; Ok (false, p)
  | [xfc] => p ← _set_kv_pair_px p; Ok (false, p)
  | [xfe] => p ← _set_selectdb p; Ok (false, p)
  | [xff] => Ok (true, _set_checksum p)
  | [x00] => p ← _set_kv_pair None p; Ok (false, p)
  | _ => Ok (false, p)
  end.

(** [while True: try: self._parse_next() except StopIteration: break];
    [None] when the fuel runs out. *)
Fixpoint parse_loop (fuel : nat) (p : t) : option (result t) :=
  match fuel with
  | O => None
  | S fuel' =>
      match _parse_next p with
      | Raise e => Some (Raise e)
      | Ok (true, p) => Some (Ok p)
      | Ok (false, p) => parse_loop fuel' p
      end
  end.

(** [Persistence(db)] on the content of the file, for a database whose
    store is [st]. *)
Definition init (fuel : nat) (content : bytes)
    (st : list (pyval * (pyval * option Z))) : option (result t) :=
  let p := {| file := content; aux := []; checksum := None; db_size := None;
              expiry_size := None; db_number := None; version := 0;
              store := st |} in
  match _verify_magic p with
  | Raise e => Some (Raise e)
  | Ok p =>
      match _set_version p with
      | Raise e => Some (Raise e)
      | Ok p => parse_loop fuel p
      end
  end.

End Persistence.

(* ===================================================================== *)
(** * src/redis/database.py *)
(* ===================================================================== *)

Inductive Role : Set := master | slave.

Definition role_str (r : Role) : string :=
  match r with master => "master" | slave => "slave" end.

(** The database object.  [DatabaseMaster] and [DatabaseReplica] are one
    record; a field or method that the class of the object lacks answers
    [AttributeError] where the code reaches for it.  [events] is the heap of
    [asyncio.Event] objects, [sent] the calls of [writer.write] in order (peer
    port and bytes), [tasks] the propagations handed to
    [asyncio.create_task] that have not run yet.  On a replica [replicaof] is
    the address of the master; the connection to the master is the one whose
    peer port is that port. *)
Record DB := {
  role : Role;
  store : list (pyval * (pyval * option Z));
  stream : gmap string (list Stream.entry);
  config : gmap string pyval;
  master_replid : string;
  master_repl_offset : Z;
  replicas : list ReplicaConnection;
  replicaof : option (string * Z);
  wait_triggers : list WaitTrigger;
  stream_triggers : list Stream.StreamTrigger;
  slave_repl_offset : Z;
  events : Event.heap;
  sent : list (Z * Py.bytes);
  tasks : list Py.bytes
}.

Definition with_store (x : list (pyval * (pyval * option Z))) (d : DB) : DB :=
  {| role := role d; store := x; stream := stream d; config := config d;
     master_replid := master_replid d; master_repl_offset := master_repl_offset d;
     replicas := replicas d; wait_triggers := wait_triggers d;
     stream_triggers := stream_triggers d; slave_repl_offset := slave_repl_offset d;
     events := events d; sent := sent d; tasks := tasks d;
     replicaof := replicaof d |}.

Definition with_stream (x : gmap string (list Stream.entry)) (d : DB) : DB :=
  {| role := role d; store := store d; stream := x; config := config d;
     master_replid := master_replid d; master_repl_offset := master_repl_offset d;
     replicas := replicas d; wait_triggers := wait_triggers d;
     stream_triggers := stream_triggers d; slave_repl_offset := slave_repl_offset d;
     events := events d; sent := sent d; tasks := tasks d;
     replicaof := replicaof d |}.

Definition with_master_repl_offset (x : Z) (d : DB) : DB :=
  {| role := role d; store := store d; stream := stream d; config := config d;
     master_replid := master_replid d; master_repl_offset := x;
     replicas := replicas d; wait_triggers := wait_triggers d;
     stream_triggers := stream_triggers d; slave_repl_offset := slave_repl_offset d;
     events := events d; sent := sent d; tasks := tasks d;
     replicaof := replicaof d |}.

Definition with_replicas (x : list ReplicaConnection) (d : DB) : DB :=
  {| role := role d; store := store d; stream := stream d; config := config d;
     master_replid := master_replid d; master_repl_offset := master_repl_offset d;
     replicas := x; wait_triggers := wait_triggers d;
     stream_triggers := stream_triggers d; slave_repl_offset := slave_repl_offset d;
     events := events d; sent := sent d; tasks := tasks d;
     replicaof := replicaof d |}.

Definition with_wait_triggers (x : list WaitTrigger) (d : DB) : DB :=
  {| role := role d; store := store d; stream := stream d; config := config d;
     master_replid := master_replid d; master_repl_offset := master_repl_offset d;
     replicas := replicas d; wait_triggers := x;
     stream_triggers := stream_triggers d; slave_repl_offset := slave_repl_offset d;
     events := events d; sent := sent d; tasks := tasks d;
     replicaof := replicaof d |}.

Definition with_stream_triggers (x : list Stream.StreamTrigger) (d : DB) : DB :=
  {| role := role d; store := store d; stream := stream d; config := config d;
     master_replid := master_replid d; master_repl_offset := master_repl_offset d;
     replicas := replicas d; wait_triggers := wait_triggers d;
     stream_triggers := x; slave_repl_offset := slave_repl_offset d;
     events := events d; sent := sent d; tasks := tasks d;
     replicaof := replicaof d |}.

Definition with_slave_repl_offset (x : Z) (d : DB) : DB :=
  {| role := role d; store := store d; stream := stream d; config := config d;
     master_replid := master_replid d; master_repl_offset := master_repl_offset d;
     replicas := replicas d; wait_triggers := wait_triggers d;
     stream_triggers := stream_triggers d; slave_repl_offset := x;
     events := events d; sent := sent d; tasks := tasks d;
     replicaof := replicaof d |}.

Definition with_events (x : Event.heap) (d : DB) : DB :=
  {| role := role d; store := store d; stream := stream d; config := config d;
     master_replid := master_replid d; master_repl_offset := master_repl_offset d;
     replicas := replicas d; wait_triggers := wait_triggers d;
     stream_triggers := stream_triggers d; slave_repl_offset := slave_repl_offset d;
     events := x; sent := sent d; tasks := tasks d; replicaof := replicaof d |}.

Definition with_sent (x : list (Z * Py.bytes)) (d : DB) : DB :=
  {| role := role d; store := store d; stream := stream d; config := config d;
     master_replid := master_replid d; master_repl_offset := master_repl_offset d;
     replicas := replicas d; wait_triggers := wait_triggers d;
     stream_triggers := stream_triggers d; slave_repl_offset := slave_repl_offset d;
     events := events d; sent := x; tasks := tasks d;
     replicaof := replicaof d |}.

Definition with_tasks (x : list Py.bytes) (d : DB) : DB :=
  {| role := role d; store := store d; stream := stream d; config := config d;
     master_replid := master_replid d; master_repl_offset := master_repl_offset d;
     replicas := replicas d; wait_triggers := wait_triggers d;
     stream_triggers := stream_triggers d; slave_repl_offset := slave_repl_offset d;
     events := events d; sent := sent d; tasks := x;
     replicaof := replicaof d |}.

Module Database.
Import Py.

(** [writer.write(data)] on the connection whose peer port is [p]. *)
Definition write (p : Z) (data : bytes) (db : DB) : DB :=
  with_sent (sent db ++ [(p, data)]) db.

Definition set (key value : pyval) (expiry : option Z) (db : DB) : DB :=
  with_store (Dict.set key (value, expiry) (store db)) db.

(** [get]: a stored pair is a non-empty tuple, hence true; the entry is
    deleted when [expiry] is true and [now >= expiry]. *)
Definition get (now : Z) (key : pyval) (db : DB) : DB * pyval :=
  match Dict.get key (store db) with
  | Some (value, expiry) =>
      if truthy_num expiry && (default 0 expiry <=? now)
      then (with_store (Dict.del key (store db)) db, PNone)
      else (db, value)
  | None => (db, PNone)
  end.

(** ** [DatabaseMaster] *)

Definition register_replica (replica : ReplicaConnection) (db : DB) : DB :=
  with_replicas (replicas db ++ [replica]) db.

Definition replication_count_acks_by_offset (master_offset : Z) (db : DB) : Z :=
  Z.of_nat (length (List.filter
    (fun r => master_offset <=? replication_offset r) (replicas db))).

Definition update_replica_offset (connection : Z) (offset : Z) (db : DB) : DB :=
  let db := with_wait_triggers
    (List.filter (fun t => negb (Event.is_set (wt_event t) (events db)))
                 (wait_triggers db)) db in
  let db := with_replicas
    (map (fun r => if connection =? port r then update_offset offset r else r)
         (replicas db)) db in
  foldl (fun db trigger =>
           if wt_num_replicas trigger
              <=? replication_count_acks_by_offset (wt_master_offset trigger) db
           then with_events (Event.set (wt_event trigger) (events db)) db
           else db)
        db (wait_triggers db).

(** The offset moves first, then every replica is written to. *)
Definition propagate_command (command : bytes) (db : DB) : DB :=
  let db := with_master_repl_offset
              (master_repl_offset db + Z.of_nat (length command)) db in
  foldl (fun db replica => write (port replica) command db) db (replicas db).

(** [any(key == condition[0] and id > condition[1] for ...)] *)
Definition condition_met (key id : string) (conditions : list (string * string))
  : bool :=
  existsb (fun c => String.eqb key c.1 && str_gt id c.2) conditions.

Definition check_stream_triggers (key id : string) (db : DB) : DB :=
  let db := with_stream_triggers
    (List.filter (fun t => negb (Event.is_set (Stream.st_event t) (events db)))
                 (stream_triggers db)) db in
  foldl (fun db trigger =>
           if condition_met key id (Stream.st_conditions trigger)
           then with_events (Event.set (Stream.st_event trigger) (events db)) db
           else db)
        db (stream_triggers db).

(** ** [DatabaseReplica] *)

Definition inc_offset (n : Z) (db : DB) : DB :=
  with_slave_repl_offset (slave_repl_offset db + n) db.

(** ** Construction.  [rdb] is the content of the file at [rdb_path] when
    that path exists.  The result is [None] when the loader is still
    running after [fuel] records. *)

Definition init_store (fuel : nat) (rdb : option bytes)
  : option (result (list (pyval * (pyval * option Z)))) :=
  match rdb with
  | None => Some (Ok [])
  | Some content =>
      match Persistence.init fuel content [] with
      | None => None
      | Some (Raise e) => Some (Raise e)
      | Some (Ok p) => Some (Ok (Persistence.store p))
      end
  end.

Definition init_master (fuel : nat) (cfg : gmap string pyval)
    (replid : string) (rdb : option bytes) : option (result DB) :=
  match init_store fuel rdb with
  | None => None
  | Some (Raise e) => Some (Raise e)
  | Some (Ok st) =>
      Some (Ok {| role := master; store := st; stream := ∅; config := cfg;
                  master_replid := replid; master_repl_offset := 0;
                  replicas := []; wait_triggers := []; stream_triggers := [];
                  slave_repl_offset := 0; events := []; sent := [];
                  tasks := []; replicaof := None |})
  end.

(** [master_host, master_port = args.replicaof], the port already an
    [int]. *)
Definition init_replica (fuel : nat) (cfg : gmap string pyval)
    (master_host : string) (master_port : Z)
    (rdb : option bytes) : option (result DB) :=
  match init_store fuel rdb with
  | None => None
  | Some (Raise e) => Some (Raise e)
  | Some (Ok st) =>
      Some (Ok {| role := slave; store := st; stream := ∅; config := cfg;
                  master_replid := ""; master_repl_offset := 0;
                  replicas := []; wait_triggers := []; stream_triggers := [];
                  slave_repl_offset := 0; events := []; sent := [];
                  tasks := [];
                  replicaof := Some (master_host, master_port) |})
  end.


End Database.

(* ===================================================================== *)
(** * src/redis/command.py *)
(* ===================================================================== *)

(** A computation on the database that may raise: the state is kept when an
    exception leaves the computation, as the mutations made before the
    [raise] stay made. *)
Definition M (A : Type) : Type := DB -> DB * result A.

Definition retM {A} (a : A) : M A := fun db => (db, Ok a).

Definition bindM {A B} (m : M A) (k : A -> M B) : M B := fun db =>
  match m db with
  | (db', Ok a) => k a db'
  | (db', Raise e) => (db', Raise e)
  end.

Notation "'let*' x ':=' m 'in' k" := (bindM m (fun x => k))
  (at level 10, x pattern, m at level 100, k at level 200).

Definition lift {A} (r : result A) : M A := fun db => (db, r).
Definition gets {A} (f : DB -> A) : M A := fun db => (db, Ok (f db)).
Definition modify (f : DB -> DB) : M unit := fun db => (f db, Ok tt).

Module Command.
Import Py.

Inductive verb : Set :=
  | PING | ECHO | SET | GET | CONFIG | KEYS | INFO | REPLCONF | PSYNC | WAIT
  | TYPE | XADD | XRANGE | XREAD | Unknown.

(** A command object: its class, [self.array], and the peer port of
    [self.connection]. *)
Record t := {
  name : verb;
  array : list string;
  connection : Z
}.

Definition verb_of (name : string) : verb :=
  if String.eqb name "PING" then PING
  else if String.eqb name "ECHO" then ECHO
  else if String.eqb name "SET" then SET
  else if String.eqb name "GET" then GET
  else if String.eqb name "CONFIG" then CONFIG
  else if String.eqb name "KEYS" then KEYS
  else if String.eqb name "INFO" then INFO
  else if String.eqb name "REPLCONF" then REPLCONF
  else if String.eqb name "PSYNC" then PSYNC
  else if String.eqb name "WAIT" then WAIT
  else if String.eqb name "TYPE" then TYPE
  else if String.eqb name "XADD" then XADD
  else if String.eqb name "XRANGE" then XRANGE
  else if String.eqb name "XREAD" then XREAD
  else Unknown.

(** [self.array[i]] *)
Definition item_at (array : list string) (i : nat) : result string :=
  of_option IndexError (array !! i).

(** [Command.parse]: [array[0]] raises [IndexError] on an empty array. *)
Definition parse (connection : Z) (array : list string) : result t :=
  first ← item_at array 0;
  Ok {| name := verb_of (upper first); array := array;
        connection := connection |}.

Definition _pack (array : list string) : bytes :=
  Resp.array (map istr array).

(** Where a command waits on an event, and what it does when it is
    resumed, by the event or by the timeout. *)
Inductive cont : Type :=
  | KWait (trigger : WaitTrigger)
  | KRead (array : list string).

Inductive step : Type :=
  | Return (response : option bytes)
  | Await (e : Event.t) (k : cont).

(** A method or field of [DatabaseMaster] reached on a replica. *)
Definition master_attr : M unit := fun db =>
  match role db with
  | master => (db, Ok tt)
  | slave => (db, Raise AttributeError)
  end.

(** ** The verbs *)

Definition respond_unknown (array : list string) : M step :=
  retM (Return (Some (Resp.error_unknown_command array))).

Definition respond_ping : M step :=
  let* r := gets role in
  match r with
  | master => retM (Return (Some (Resp.simple_string "PONG")))
  | slave => retM (Return None)
  end.

Definition respond_echo (array : list string) : M step :=
  let* x := lift (item_at array 1) in
  retM (Return (Some (Resp.bulk_string (PStr x)))).

(** [px and (time.time() * 1000 + px)] *)
Definition expiry_of (now : Z) (px : option Z) : option Z :=
  match px with
  | None => None
  | Some n => if truthy_num (Some n) then Some (now + n) else Some n
  end.

Definition respond_set (now : Z) (array : list string) : M step :=
  let* (key, value) := lift (match take 2 (drop 1 array) with
                        | [k; v] => Ok (k, v)
                        | _ => Raise ValueError
                        end) in
  let* px := lift (if (length array =? 5)%nat
                && String.eqb (upper (default "" (array !! 3%nat))) "PX"
             then n ← int (default "" (array !! 4%nat)); Ok (Some n)
             else Ok None) in
  let expiry := expiry_of now px in
  let* _ := modify (Database.set (PStr key) (PStr value) expiry) in
  let* r := gets role in
  match r with
  | master =>
      let* _ := modify (fun db => with_tasks (tasks db ++ [_pack array]) db) in
      retM (Return (Some (Resp.simple_string "OK")))
  | slave => retM (Return None)
  end.

Definition respond_get (now : Z) (array : list string) : M step :=
  let* key := lift (item_at array 1) in
  let* value := (fun db => let '(db, v) := Database.get now (PStr key) db in (db, Ok v)) in
  retM (Return (Some (Resp.bulk_string value))).

Definition respond_config (array : list string) : M step :=
  let* sub := lift (item_at array 1) in
  if String.eqb (upper sub) "GET" then
    let* key := lift (item_at array 2) in
    let* value := gets (fun db => default PNone (config db !! key)) in
    retM (Return (Some (Resp.array [istr key; IVal value])))
  else retM (Return (Some (Resp.error_unknown_command array))).

Definition respond_keys : M step :=
  let* keys := gets (fun db => Dict.keys (store db)) in
  retM (Return (Some (Resp.array (map IVal keys)))).

Definition lf : string := String "010" EmptyString.

Definition respond_info : M step :=
  let* r := gets role in
  let info := "# Replication" +:+ lf +:+ "role:" +:+ role_str r +:+ lf in
  match r with
  | master =>
      let* id := gets master_replid in
      let* off := gets master_repl_offset in
      retM (Return (Some (Resp.bulk_string (PStr
        (info +:+ "master_replid:" +:+ id +:+ lf
              +:+ "master_repl_offset:" +:+ str_of_int off +:+ lf)))))
  | slave => retM (Return (Some (Resp.bulk_string (PStr info))))
  end.

Definition respond_replconf (connection : Z) (array : list string) : M step :=
  let* sub := lift (item_at array 1) in
  let sub := upper sub in
  let* r := gets role in
  if String.eqb sub "LISTENING-PORT" then
    retM (Return (Some (Resp.simple_string "OK")))
  else if String.eqb sub "CAPA" then
    retM (Return (Some (Resp.simple_string "OK")))
  else if String.eqb sub "GETACK" then
    match r with
    | slave =>
        let* off := gets slave_repl_offset in
        retM (Return (Some (Resp.array
          [istr "REPLCONF"; istr "ACK"; IVal (PInt off)])))
    | master => retM (Return None)
    end
  else if String.eqb sub "ACK" then
    match r with
    | master =>
        let* raw := lift (item_at array 2) in
        let* offset := lift (int raw) in
        let* _ := modify (Database.update_replica_offset connection offset) in
        retM (Return None)
    | slave => retM (Return None)
    end
  else retM (Return (Some (Resp.error_unknown_command array))).

Definition RDB_BYTES : bytes :=
  [x52; x45; x44; x49; x53; x30; x30; x31; x31; xfa; x09; x72; x65; x64; x69;
   x73; x2d; x76; x65; x72; x05; x37; x2e; x32; x2e; x30; xfa; x0a; x72; x65;
   x64; x69; x73; x2d; x62; x69; x74; x73; xc0; x40; xfa; x05; x63; x74; x69;
   x6d; x65; xc2; x6d; x08; xbc; x65; xfa; x08; x75; x73; x65; x64; x2d; x6d;
   x65; x6d; xc2; xb0; xc4; x10; x00; xfa; x08; x61; x6f; x66; x2d; x62; x61;
   x73; x65; xc0; x00; xff; xf0; x6e; x3b; xfe; xc0; xff; x5a; xa2].

Definition respond_psync (connection : Z) : M step :=
  let* r := gets role in
  let* _ := match r with
      | master =>
          modify (Database.register_replica
                    {| port := connection; replication_offset := 0 |})
      | slave => retM tt
      end in
  let* _ := master_attr in
  let* id := gets master_replid in
  let* off := gets master_repl_offset in
  retM (Return (Some (
    Resp.simple_string ("FULLRESYNC " +:+ id +:+ " " +:+ str_of_int off)
    ++ encode ("$" +:+ str_of_int (Z.of_nat (length RDB_BYTES)) +:+ Resp.crlf)
    ++ RDB_BYTES))).

Definition get_ack : bytes :=
  Resp.array (map istr (split " " "REPLCONF GETACK *")).

(** [CommandWait._respond] up to its wait on the event of the trigger. *)
Definition respond_wait (array : list string) : M step :=
  let* r := gets role in
  match r with
  | slave => retM (Return None)
  | master =>
      let* (num_replicas, timeout) := lift (match drop 1 array with
                                       | [a; c] => n ← int a; t ← int c; Ok (n, t)
                                       | _ => Raise ValueError
                                       end) in
      let* master_offset := gets master_repl_offset in
      let* ack_replicas := gets (Database.replication_count_acks_by_offset master_offset) in
      if num_replicas <=? ack_replicas then
        retM (Return (Some (Resp.integer ack_replicas)))
      else
        let* e := (fun db => let '(e, h) := Event.new (events db) in
                       (with_events h db, Ok e)) in
        let trigger := {| wt_event := e; wt_num_replicas := num_replicas;
                          wt_master_offset := master_offset |} in
        let* _ := modify (fun db => with_wait_triggers (wait_triggers db ++ [trigger]) db) in
        if 0 <? master_offset then
          let* _ := modify (Database.propagate_command get_ack) in
          retM (Await e (KWait trigger))
        else
          let* ack_replicas := gets (Database.replication_count_acks_by_offset
                                 (wt_master_offset trigger)) in
          retM (Return (Some (Resp.integer ack_replicas)))
  end.

(** The end of [CommandWait._respond], once the wait is over. *)
Definition resume_wait (trigger : WaitTrigger) : M (option bytes) :=
  let* ack_replicas := gets (Database.replication_count_acks_by_offset
                         (wt_master_offset trigger)) in
  retM (Some (Resp.integer ack_replicas)).

Definition respond_type (now : Z) (array : list string) : M step :=
  let* key := lift (item_at array 1) in
  let* value := (fun db => let '(db, v) := Database.get now (PStr key) db in (db, Ok v)) in
  match value with
  | PNone =>
      let* entries := gets (fun db => Stream.read key (stream db)) in
      match entries with
      | Some _ => retM (Return (Some (Resp.simple_string "stream")))
      | None => retM (Return (Some (Resp.simple_string "none")))
      end
  | _ => retM (Return (Some (Resp.simple_string "string")))
  end.

Definition respond_xadd (now : Z) (array : list string) : M step :=
  let* (key, id) := lift (match take 2 (drop 1 array) with
                     | [k; i] => Ok (k, i)
                     | _ => Raise ValueError
                     end) in
  let entry := (id, drop 3 array) in
  let* _ := master_attr in
  let* _ := modify (Database.check_stream_triggers key id) in
  let* reply := (fun db => let '(st, r) := Stream.add now key entry (stream db) in
                     (with_stream st db, r)) in
  retM (Return (Some reply)).

Definition respond_xrange (array : list string) : M step :=
  let* (key, start, end_) := lift (match drop 1 array with
                              | [k; s; e] => Ok (k, s, e)
                              | _ => Raise ValueError
                              end) in
  let* entries := (fun db => (db, Stream.range key start end_ (stream db))) in
  retM (Return (Some (Resp.array (map Stream.entry_item entries)))).

(** [CommandXRread._read] *)
Fixpoint _read_streams (request : list (string * string))
    (st : gmap string (list Stream.entry))
  : result (list (string * list Stream.entry)) :=
  match request with
  | [] => Ok []
  | (key, start) :: rest =>
      start ← Utils.inc_id start;
      entries ← Stream.range key start "+" st;
      more ← _read_streams rest st;
      Ok ((key, entries) :: more)
  end.

Definition _read (request : list string) : M (option bytes) :=
  let* result := (fun db => (db, _read_streams (Utils.to_pairs request) (stream db))) in
  let is_empty := forallb (fun s => (length s.2 =? 0)%nat) result in
  if is_empty then retM (Some (Resp.bulk_string PNone))
  else retM (Some (Resp.array
         (map (fun s => IList [istr s.1; IList (map Stream.entry_item s.2)])
              result))).

(** [CommandXRread._replace_dollars]: the pairs are taken from a copy of
    [self.array[4:]], the assignments go to [self.array]. *)
Fixpoint _replace_dollars_loop (i : nat) (pairs : list (string * string))
    (st : gmap string (list Stream.entry)) (array : list string)
  : result (list string) :=
  match pairs with
  | [] => Ok array
  | (key, id) :: rest =>
      if String.eqb id "$" then
        match Stream.read key st with
        | None => Raise TypeError
        | Some entries =>
            let v := match last entries with
                     | None => "0-0"
                     | Some e => e.1
                     end in
            _replace_dollars_loop (S i) rest st (<[(4 + 2 * i + 1)%nat := v]> array)
        end
      else _replace_dollars_loop (S i) rest st array
  end.

Definition _replace_dollars (array : list string) : M (list string) :=
  fun db => (db, _replace_dollars_loop 0 (Utils.to_pairs (drop 4 array))
                   (stream db) array).

(** [CommandXRread._respond] up to its wait on the event of the trigger. *)
Definition respond_xread (array : list string) : M step :=
  let* sub := lift (item_at array 1) in
  let sub := upper sub in
  if String.eqb sub "STREAMS" then
    let* r := _read (drop 2 array) in retM (Return r)
  else if String.eqb sub "BLOCK" then
    let* array := _replace_dollars array in
    let* trigger := (fun db => let '(t, h) := Stream.new_trigger (drop 4 array) (events db) in
                         (with_events h db, Ok t)) in
    let* _ := master_attr in
    let* _ := modify (fun db => with_stream_triggers (stream_triggers db ++ [trigger]) db) in
    let* raw := lift (item_at array 2) in
    let* _ := lift (int raw) in
    retM (Await (Stream.st_event trigger) (KRead array))
  else retM (Return None).

Definition _respond (now : Z) (c : t) : M step :=
  match name c with
  | PING => respond_ping
  | ECHO => respond_echo (array c)
  | SET => respond_set now (array c)
  | GET => respond_get now (array c)
  | CONFIG => respond_config (array c)
  | KEYS => respond_keys
  | INFO => respond_info
  | REPLCONF => respond_replconf (connection c) (array c)
  | PSYNC => respond_psync (connection c)
  | WAIT => respond_wait (array c)
  | TYPE => respond_type now (array c)
  | XADD => respond_xadd now (array c)
  | XRANGE => respond_xrange (array c)
  | XREAD => respond_xread (array c)
  | Unknown => respond_unknown (array c)
  end.

Definition resume (k : cont) : M (option bytes) :=
  match k with
  | KWait trigger => resume_wait trigger
  | KRead array => _read (drop 4 array)
  end.

(** The part of [execute] that follows [await self._respond()]: on a
    replica the offset moves by the length of the packed array, then a
    response that is not empty is written to the connection. *)
Definition finish (c : t) (response : option bytes) : M unit :=
  let* r := gets role in
  let* _ := match r with
      | slave => modify (Database.inc_offset (Z.of_nat (length (_pack (array c)))))
      | master => retM tt
      end in
  match response with
  | Some (x :: data) => modify (Database.write (connection c) (x :: data))
  | _ => retM tt
  end.

(** [execute] up to the end, or up to the event on which [_respond] waits. *)
Definition execute (now : Z) (c : t) : M (option (Event.t * cont)) :=
  let* st := _respond now c in
  match st with
  | Return response => let* _ := finish c response in retM None
  | Await e k => retM (Some (e, k))
  end.

(** [execute] from the point where [_respond] is resumed. *)
Definition resume_execute (c : t) (k : cont) : M unit :=
  let* response := resume k in
  let c := match k with
           | KRead array => {| name := name c; array := array;
                               connection := connection c |}
           | KWait _ => c
           end in
  finish c response.

End Command.

(* ===================================================================== *)
(** * The order on identifiers that the specification asks for *)
(* ===================================================================== *)

(** An identifier [ms-seq] read as a pair of numbers, and the lexicographic
    order on such pairs.  These definitions follow the words of the
    specification, not the code: the code compares identifiers as strings
    ([Py.str_le], [Py.str_gt]). *)
Module IdOrder.

Definition parse (id : string) : option (Z * Z) :=
  match Py.split2 "-" id with
  | Ok (ms, seq) =>
      match Py.int ms, Py.int seq with
      | Ok m, Ok q => Some (m, q)
      | _, _ => None
      end
  | Raise _ => None
  end.

Definition pair_ltb (a c : Z * Z) : bool :=
  (a.1 <? c.1) || ((a.1 =? c.1) && (a.2 <? c.2)).

Definition ltb (a c : string) : bool :=
  match parse a, parse c with
  | Some x, Some y => pair_ltb x y
  | _, _ => false
  end.

Definition leb (a c : string) : bool :=
  match parse a, parse c with
  | Some x, Some y => negb (pair_ltb y x)
  | _, _ => false
  end.

(** Every identifier is below the ones that follow it. *)
Fixpoint increasing (ids : list string) : bool :=
  match ids with
  | [] => true
  | a :: rest => forallb (ltb a) rest && increasing rest
  end.

(** The entries that [XRANGE start end] must return according to the
    specification, for explicit bounds. *)
Definition in_range (start end_ : string) (e : Stream.entry) : bool :=
  leb start e.1 && leb e.1 end_.

End IdOrder.

(* ===================================================================== *)
(** * Runs of commands *)
(* ===================================================================== *)

Module Run.

(** A master that has just started without an RDB file. *)
Definition master0 : DB :=
  {| role := master; store := []; stream := ∅; config := ∅;
     master_replid := "8371b4fb1155b71f4a04d3e1bc3e18c4a990aeeb";
     master_repl_offset := 0; replicas := []; replicaof := None;
     wait_triggers := []; stream_triggers := []; slave_repl_offset := 0;
     events := []; sent := []; tasks := [] |}.

(** A replica of a master that listens on port 6379. *)
Definition replica0 : DB :=
  {| role := slave; store := []; stream := ∅; config := ∅;
     master_replid := ""; master_repl_offset := 0; replicas := [];
     replicaof := Some ("localhost", 6379);
     wait_triggers := []; stream_triggers := []; slave_repl_offset := 0;
     events := []; sent := []; tasks := [] |}.

(** One frame holding [array], received at time [now] on the connection
    whose peer port is [conn], parsed and executed. *)
Definition command (now : Z) (conn : Z) (array : list string)
  : M (option (Event.t * Command.cont)) :=
  let* c := lift (Command.parse conn array) in
  Command.execute now c.

(** The database after a command, and what the command answered. *)
Definition after {A} (m : M A) (db : DB) : DB := (m db).1.
Definition answer {A} (m : M A) (db : DB) : result A := (m db).2.

(** Frames executed one after the other; each is given with the time and
    the connection on which it arrives.  A command that waits leaves the
    database as it is at the wait. *)
Fixpoint commands (frames : list (Z * Z * list string)) (db : DB) : DB :=
  match frames with
  | [] => db
  | (now, conn, array) :: rest => commands rest (after (command now conn array) db)
  end.

(** Successive [Stream.add] on one key, the replies in order. *)
Fixpoint adds (now : Z) (key : string) (entries : list Stream.entry)
    (st : gmap string (list Stream.entry))
  : gmap string (list Stream.entry) * list (result Py.bytes) :=
  match entries with
  | [] => (st, [])
  | e :: rest =>
      let '(st, r) := Stream.add now key e st in
      let '(st, rs) := adds now key rest st in
      (st, r :: rs)
  end.

(** The field and value used in the scenarios. *)
Definition fv : list string := ["f"; "v"].


(** An RDB file with one key-value record whose key and value both start
    with a length byte of an unsupported encoding (top bits 01 and 10). *)
Definition rdb_unsupported : Py.bytes :=
  Py.b "REDIS0011" ++ [x00; x40; x80; xff] ++ Py.b "checksum".

(** The identifiers stored under a key. *)
Definition ids (key : string) (st : gmap string (list Stream.entry))
  : list string :=
  map fst (default [] (st !! key)).

End Run.

(* ===================================================================== *)
(** * Predicates used in the statements *)
(* ===================================================================== *)

(** A string of decimal digits, and bytes without a carriage return. *)
Definition digits (s : string) : bool :=
  forallb Py.is_digit (list_ascii_of_string s).

Definition no_cr (l : Py.bytes) : bool :=
  forallb (fun x => negb (Byte.eqb x x0d)) l.

(** The top two bits of a byte of the RDB file. *)
Definition crumb (x : byte) : Z := Z.shiftr (Z.of_N (Byte.to_N x)) 6.


(** What a computation leaves alone on a replica: the role and the offset. *)
Definition same_replica (db db' : DB) : Prop :=
  role db' = role db /\ slave_repl_offset db' = slave_repl_offset db.

(** Started on a replica, [m] keeps the role and the offset, and a value it
    returns satisfies [Q]. *)
Definition on_replica {A} (Q : A -> Prop) (m : M A) : Prop :=
  forall db db' r, role db = slave -> m db = (db', r) ->
    same_replica db db' /\ forall a, r = Ok a -> Q a.

Definition is_return (st : Command.step) : Prop :=
  exists r, st = Command.Return r.

(* ===================================================================== *)
(** * src/redis/database.py: connections and the handshake *)
(* ===================================================================== *)

Module Server.
Import Py.

(** The handler of one connection, taken alone: the other tasks of the
    event loop (the handlers of the other connections, the propagations
    kept in [tasks]) are not run at its suspension points; a run in which
    they are is a composition with [Database.run_tasks] and with the
    handlers of the other connections. *)

(** How [_handle_incoming] ends: the loop over the parsed commands is over,
    an exception leaves it, it is suspended in a command that waits for an
    event (with the commands that follow), or the parser never returns. *)
Inductive handled : Type :=
  | Handled
  | Failed (e : exn)
  | Waiting (e : Event.t) (c : Command.t) (k : Command.cont)
            (rest : list Command.t) (pe : Resp.parse_end)
  | Spinning.

(** [for command in resp.parse(...): await command.execute()].  The
    generator is consumed one command at a time: a command is executed
    before the bytes behind it are parsed, so the end of the parse is met
    after the last command.  [clock i] is the time at which the command
    number [i] of the buffer is executed. *)
Fixpoint run_commands (clock : nat -> Z) (i : nat) (cs : list Command.t)
    (pe : Resp.parse_end) (db : DB) : DB * handled :=
  match cs with
  | [] =>
      (db, match pe with
           | Resp.Finished => Handled
           | Resp.Raised e => Failed e
           | Resp.OutOfFuel => Spinning
           end)
  | c :: cs' =>
      match Command.execute (clock i) c db with
      | (db', Ok None) => run_commands clock (S i) cs' pe db'
      | (db', Ok (Some (e, k))) => (db', Waiting e c k cs' pe)
      | (db', Raise e) => (db', Failed e)
      end
  end.

Definition _handle_incoming (fuel : nat) (clock : nat -> Z) (buffer : bytes)
    (connection : Z) (db : DB) : DB * handled :=
  let '(cs, pe) := Resp.parse (Command.parse connection) fuel buffer in
  run_commands clock 0 cs pe db.

(** [_handle_connection]: [reads] are the results of the successive
    [reader.read(bufsize)], the empty one standing for the end of the
    stream; every buffer is handled on its own.  [clock j] is the clock of
    the read number [j]. *)
Fixpoint _handle_connection (fuel : nat) (clock : nat -> nat -> Z)
    (reads : list bytes) (connection : Z) (db : DB) : DB * handled :=
  match reads with
  | [] | [] :: _ => (db, Handled)
  | buffer :: reads' =>
      match _handle_incoming fuel (clock 0%nat) buffer connection db with
      | (db', Handled) =>
          _handle_connection fuel (fun j => clock (S j)) reads' connection db'
      | (db', other) => (db', other)
      end
  end.

(** [_send_command] followed by [_recv_response]: the array is written to
    the master, and [reply], the result of the one [read] that follows, is
    handled as coming from the master. *)
Definition _send_command (fuel : nat) (clock : nat -> Z) (strings : list pyval)
    (reply : bytes) (db : DB) : DB * handled :=
  match replicaof db with
  | None => (db, Failed AttributeError)
  | Some (_, master_port) =>
      let command := Resp.array (map IVal strings) in
      let db := Database.write master_port command db in
      _handle_incoming fuel clock reply master_port db
  end.

(** The four commands of [_handshake]; [port] is [self.port]. *)
Definition handshake_commands (port : pyval) : list (list pyval) :=
  [[PStr "ping"];
   [PStr "REPLCONF"; PStr "listening-port"; port];
   [PStr "REPLCONF"; PStr "capa"; PStr "psync2"];
   [PStr "PSYNC"; PStr "?"; PStr "-1"]].

Fixpoint send_all (fuel : nat) (clock : nat -> Z) (commands : list (list pyval))
    (replies : list bytes) (db : DB) : DB * handled :=
  match commands with
  | [] => (db, Handled)
  | strings :: commands' =>
      let reply := default [] (head replies) in
      match _send_command fuel clock strings reply db with
      | (db', Handled) => send_all fuel clock commands' (tail replies) db'
      | (db', other) => (db', other)
      end
  end.

(** [_handshake]; [replies] are what the master answers, one read per
    command (a missing one is the empty read of a closed stream). *)
Definition _handshake (fuel : nat) (clock : nat -> Z) (port : pyval)
    (replies : list bytes) (db : DB) : DB * handled :=
  send_all fuel clock (handshake_commands port) replies db.

End Server.

(* ===================================================================== *)
(** * Inputs of the statements: frames, identifiers, RDB files *)
(* ===================================================================== *)

(** A command frame as a client encodes it: at least the verb, ASCII only. *)
Definition well_formed (items : list string) : Prop :=
  items <> [] /\ Forall (fun s => Py.isascii s = true) items.

(** What [Command.parse] makes of the array [items]. *)
Definition command_of (conn : Z) (items : list string) : Command.t :=
  {| Command.name := Command.verb_of (Py.upper (default ""%string (head items)));
     Command.array := items; Command.connection := conn |}.

(** A simple string on the wire. *)
Definition plus_line (line : Py.bytes) : Py.bytes := x2b :: line ++ Py.CRLF.

(** The reply that [CommandPSync] builds from the identity and the offset
    of [db]. *)
Definition fullresync (db : DB) : Py.bytes :=
  Resp.simple_string
    ("FULLRESYNC " +:+ master_replid db +:+ " "
       +:+ Py.str_of_int (master_repl_offset db))
  ++ Py.encode ("$" +:+ Py.str_of_int (Z.of_nat (length Command.RDB_BYTES))
                  +:+ Resp.crlf)
  ++ Command.RDB_BYTES.

Definition no_dash (s : string) : bool :=
  forallb (fun c => negb (Ascii.eqb c "-")) (list_ascii_of_string s).

(** The last identifier of a list of entries, [0-0] for none. *)
Definition top_id (entries : list Stream.entry) : string :=
  match last entries with
  | None => "0-0"
  | Some e => e.1
  end.

(** An RDB string whose length fits the six low bits of one byte. *)
Definition short (s : string) : Prop := (length (Py.encode s) < 64)%nat.

Definition len_byte (s : string) : byte :=
  default x00 (Byte.of_nat (length (Py.encode s))).

Definition rdb_string (s : string) : Py.bytes := len_byte s :: Py.encode s.

(** A key-value record without expiry: the value type 0, then two strings. *)
Definition rdb_record (kv : string * string) : Py.bytes :=
  x00 :: rdb_string kv.1 ++ rdb_string kv.2.

(** The magic, four bytes of version, the records, [0xFF], the checksum. *)
Definition rdb_file (version : Py.bytes) (pairs : list (string * string))
    (checksum : Py.bytes) : Py.bytes :=
  Py.b "REDIS" ++ version ++ mjoin (map rdb_record pairs) ++ [xff] ++ checksum.

(** The store after [db.set(key, value, None)] for each pair in turn. *)
Definition store_of (pairs : list (string * string))
  : list (pyval * (pyval * option Z)) :=
  foldl (fun st kv => Dict.set (PStr kv.1) (PStr kv.2, None) st) [] pairs.

(* ===================================================================== *)
(** * Properties *)
(* ===================================================================== *)

Example py_str_10 : Py.str_of_int 10 = "10"%string.
Proof. reflexivity. Qed.

Example py_int_neg : Py.int "-12" = Ok (-12).
Proof. reflexivity. Qed.

Example py_search_1 : Py.search_ts_star "15-*" = Some "15"%string.
Proof. reflexivity. Qed.

Example py_search_2 : Py.search_ts_star "15-3" = None.
Proof. reflexivity. Qed.

Example py_search_3 : Py.search_ts_star "a1-2-*" = Some "2"%string.
Proof. reflexivity. Qed.

Example py_cmp_1 : Py.str_le "10-0" "9-0" = true.
Proof. reflexivity. Qed.

Example py_encode_e_acute :
  Py.encode (String (ascii_of_N 233) EmptyString) = [xc3; xa9].
Proof. reflexivity. Qed.

Example py_decode_e_acute :
  Py.decode [xc3; xa9] = Ok (String (ascii_of_N 233) EmptyString).
Proof. reflexivity. Qed.

Example py_slice_neg : Py.slice_to [1; 2; 3] (-1) = [1; 2].
Proof. reflexivity. Qed.

Example resp_array_ping :
  Resp.array [istr "PING"] = Py.b "*1" ++ Py.CRLF ++ Py.b "$4" ++ Py.CRLF ++ Py.b "PING" ++ Py.CRLF.
Proof. reflexivity. Qed.

Example resp_read_array_echo :
  Resp._read_array (Resp.array [istr "ECHO"; istr "hi"]) = Ok (["ECHO"; "hi"]%string, []).
Proof. reflexivity. Qed.

Example resp_bulk_nil : Resp.bulk_string PNone = Py.b "$-1" ++ Py.CRLF.
Proof. reflexivity. Qed.

Example stream_add_s3 :
  let '(s1, r1) := Stream.add 0 "s" ("0-*", ["f"; "v"]) ∅ in
  let '(s2, r2) := Stream.add 0 "s" ("0-*", ["f"; "v"]) s1 in
  let '(s3, r3) := Stream.add 0 "s" ("0-0", ["f"; "v"]) s2 in
  r1 = Ok (Resp.bulk_string (PStr "0-1")) /\
  r2 = Ok (Resp.bulk_string (PStr "0-2")) /\
  r3 = Ok (Resp.simple_error Stream.err_zero) /\
  s3 !! "s" = Some [("0-1", ["f"; "v"]); ("0-2", ["f"; "v"])].
Proof. vm_compute. auto. Qed.

(* ===================================================================== *)
(** * Stream identifiers *)
(* ===================================================================== *)


(** C1.  The identifiers of a stream are not kept increasing in the
    numeric order.  [XADD s 10-0] followed by [XADD s 9-0] are both
    accepted, as the string 9-0 is above the string 10-0; and
    [XADD s 5-0] followed by [XADD s 3-*] appends 3-1, as a partly
    generated identifier is never compared with the top item. *)
Theorem xadd_ids_not_increasing :
  (let '(st, replies) := Run.adds 0 "s" [("10-0", Run.fv); ("9-0", Run.fv)] ∅ in
   replies = [Ok (Resp.bulk_string (PStr "10-0"));
              Ok (Resp.bulk_string (PStr "9-0"))]
   /\ Run.ids "s" st = ["10-0"; "9-0"]
   /\ IdOrder.increasing (Run.ids "s" st) = false)
  /\
  (let '(st, replies) := Run.adds 0 "s" [("5-0", Run.fv); ("3-*", Run.fv)] ∅ in
   replies = [Ok (Resp.bulk_string (PStr "5-0"));
              Ok (Resp.bulk_string (PStr "3-1"))]
   /\ Run.ids "s" st = ["5-0"; "3-1"]
   /\ IdOrder.increasing (Run.ids "s" st) = false).
Proof. vm_compute. repeat split. Qed.

(** What [Stream.add] does with a fully explicit identifier on a stream
    that has a top item: one comparison of strings decides between the
    error and the append. *)
Lemma add_explicit_id (now : Z) (key id : string) (fields : list string)
    (st : gmap string (list Stream.entry)) (entries : list Stream.entry)
    (last_id : string) (last_fields : list string) (last_ts last_seq : string) :
  String.eqb id "0-0" = false ->
  Py.search_ts_star id = None ->
  String.eqb id "*" = false ->
  st !! key = Some (entries ++ [(last_id, last_fields)]) ->
  Py.truthy_str last_id = true ->
  Py.split2 "-" last_id = Ok (last_ts, last_seq) ->
  Stream.add now key (id, fields) st
  = if Py.str_le id last_id
    then (st, Ok (Resp.simple_error Stream.err_top))
    else (<[key := (entries ++ [(last_id, last_fields)]) ++ [(id, fields)]]> st,
          Ok (Resp.bulk_string (PStr id))).
Proof.
  intros Hzero Hsearch Hstar Hkey Htruthy Hsplit.
  unfold Stream.add. cbn [fst snd]. rewrite Hkey, Hzero.
  cbn [default from_option]. unfold Datatypes.id.
  rewrite (insert_id st key _ Hkey).
  unfold Stream.resolve, Stream.last_parts. rewrite last_snoc, Htruthy, Hsplit.
  cbn [mbind result_bind]. rewrite Hsearch, Hstar.
  destruct (Py.str_le id last_id); reflexivity.
Qed.

(** C2.  An explicit identifier is rejected by the comparison of strings,
    not of numbers: after 9-0 the identifier 10-0, which is above it, is
    answered with the error and not stored; after 10-0 the identifier 9-0,
    which is below it, is stored. *)
Theorem xadd_explicit_id_compared_as_string :
  (let '(st, replies) := Run.adds 0 "s" [("9-0", Run.fv); ("10-0", Run.fv)] ∅ in
   replies = [Ok (Resp.bulk_string (PStr "9-0"));
              Ok (Resp.simple_error Stream.err_top)]
   /\ Run.ids "s" st = ["9-0"]
   /\ IdOrder.leb "10-0" "9-0" = false)
  /\
  (let '(st, replies) := Run.adds 0 "s" [("10-0", Run.fv); ("9-0", Run.fv)] ∅ in
   replies = [Ok (Resp.bulk_string (PStr "10-0"));
              Ok (Resp.bulk_string (PStr "9-0"))]
   /\ IdOrder.leb "9-0" "10-0" = true).
Proof. vm_compute. repeat split. Qed.

(** C5.  [XRANGE] filters by the comparison of strings.  After
    [XADD s 9-9] and [XADD s *] the stream holds 9-9 and 9-10;
    [XRANGE s 9-9 9-10] returns nothing, where both entries lie between
    the bounds in the numeric order.  The scenario of the specification
    (1-0, 2-0, 3-0 and the bounds 1-0 and 2-0) does return the first two
    entries. *)
Theorem xrange_compares_as_string :
  (let '(st, _) := Run.adds 0 "s" [("9-9", Run.fv); ("*", Run.fv)] ∅ in
   Run.ids "s" st = ["9-9"; "9-10"]
   /\ Stream.range "s" "9-9" "9-10" st = Ok []
   /\ List.filter (IdOrder.in_range "9-9" "9-10") (default [] (st !! "s"))
      = [("9-9", Run.fv); ("9-10", Run.fv)])
  /\
  (let '(st, _) := Run.adds 0 "s" [("1-0", Run.fv); ("2-0", Run.fv); ("3-0", Run.fv)] ∅ in
   Stream.range "s" "1-0" "2-0" st = Ok [("1-0", Run.fv); ("2-0", Run.fv)]).
Proof. vm_compute. repeat split. Qed.

(* ===================================================================== *)
(** * Blocking reads *)
(* ===================================================================== *)

(** C3.  [check_stream_triggers] runs before [Stream.add], on the
    identifier as the client wrote it, and compares strings.  A reader
    blocked by [XREAD BLOCK 5000 STREAMS s $] behind the entry 1-0 is not
    woken by [XADD s * f v], which appends 1-1: the event of its trigger
    stays clear.  A reader blocked behind 0-0 is woken by [XADD s 3-0 f v]
    although that command is rejected and appends nothing.  On a key that
    has no stream yet, [XREAD BLOCK 5000 STREAMS s $] raises before any
    trigger is registered. *)
Theorem xadd_trigger_on_written_id :
  (let blocked :=
     Run.command 100 50000 ["XREAD"; "BLOCK"; "5000"; "STREAMS"; "s"; "$"]
       (Run.commands [(0, 50001, ["XADD"; "s"; "1-0"; "f"; "v"])] Run.master0) in
   let db := Run.commands [(200, 50001, ["XADD"; "s"; "*"; "f"; "v"])] blocked.1 in
   blocked.2 = Ok (Some (0%nat,
     Command.KRead ["XREAD"; "BLOCK"; "5000"; "STREAMS"; "s"; "1-0"]))
   /\ stream_triggers blocked.1
      = [{| Stream.st_event := 0%nat; Stream.st_conditions := [("s", "1-0")] |}]
   /\ Run.ids "s" (stream db) = ["1-0"; "1-1"]
   /\ IdOrder.ltb "1-0" "1-1" = true
   /\ Event.is_set 0%nat (events db) = false)
  /\
  (let blocked :=
     Run.command 100 50000 ["XREAD"; "BLOCK"; "5000"; "STREAMS"; "s"; "0-0"]
       (Run.commands [(0, 50001, ["XADD"; "s"; "5-0"; "f"; "v"])] Run.master0) in
   let db := Run.commands [(200, 50001, ["XADD"; "s"; "3-0"; "f"; "v"])] blocked.1 in
   stream_triggers blocked.1
      = [{| Stream.st_event := 0%nat; Stream.st_conditions := [("s", "0-0")] |}]
   /\ last (sent db) = Some (50001, Resp.simple_error Stream.err_top)
   /\ Run.ids "s" (stream db) = ["5-0"]
   /\ Event.is_set 0%nat (events db) = true)
  /\
  (let blocked :=
     Run.command 100 50000 ["XREAD"; "BLOCK"; "5000"; "STREAMS"; "s"; "$"]
       Run.master0 in
   blocked.2 = Raise TypeError /\ stream_triggers blocked.1 = []).
Proof. vm_compute. repeat split. Qed.

(* ===================================================================== *)
(** * Expiry *)
(* ===================================================================== *)

(** C6.  [SET k v PX 0] stores the expiry 0, not [now_ms + 0], and an
    expiry of 0 is false in the test of [get]: a [GET k] at any later time
    answers the value and leaves the entry in the store. *)
Theorem set_px_zero_never_expires :
  let db1 := Run.commands [(1000, 50000, ["SET"; "k"; "v"; "PX"; "0"])] Run.master0 in
  let db2 := Run.commands [(2000, 50000, ["GET"; "k"])] db1 in
  Dict.get (PStr "k") (store db1) = Some (PStr "v", Some 0)
  /\ sent db2 = sent db1 ++ [(50000, Resp.bulk_string (PStr "v"))]
  /\ Dict.get (PStr "k") (store db2) = Some (PStr "v", Some 0).
Proof. vm_compute. repeat split. Qed.

(* ===================================================================== *)
(** * Facts about the builtins *)
(* ===================================================================== *)

Import Py.

Lemma encode_app s t : encode (s +:+ t) = encode s ++ encode t.
Proof.
  induction s as [|c s IH]; simpl; [reflexivity|].
  rewrite IH. by rewrite app_assoc.
Qed.

(** Decoding undoes encoding, character by character. *)
Lemma decode_encode_char c rest :
  decode (encode_char c ++ rest) = s ← decode rest; Ok (String c s).
Proof.
  destruct c as [[] [] [] [] [] [] [] []]; reflexivity.
Qed.

Lemma decode_encode s : decode (encode s) = Ok s.
Proof.
  induction s as [|c s IH]; [reflexivity|].
  cbn [encode]. rewrite decode_encode_char, IH. reflexivity.
Qed.

Lemma encode_char_ascii c :
  is_ascii_char c = true -> encode_char c = [byte_of_ascii c].
Proof. unfold encode_char. by intros ->. Qed.

(** [len] counts the bytes of the encoding for ASCII strings only. *)
Lemma length_encode_ascii s :
  isascii s = true -> length (encode s) = String.length s.
Proof.
  induction s as [|c s IH]; simpl; [done|].
  intros [Hc Hs]%andb_true_iff. rewrite encode_char_ascii by done.
  simpl. by rewrite IH.
Qed.

Lemma digits_uint d : digits (NilEmpty.string_of_uint d) = true.
Proof. induction d; simpl; try done. Qed.

Lemma digits_uint_nz d : digits (NilZero.string_of_uint d) = true.
Proof. destruct d; try apply (digits_uint (_ _)); done. Qed.

Lemma digits_str_of_nat n : digits (str_of_int (Z.of_nat n)) = true.
Proof.
  unfold str_of_int. destruct (Z.of_nat n) eqn:E; try lia.
  - done.
  - simpl. apply digits_uint_nz.
Qed.

Lemma digit_ascii c :
  is_digit c = true ->
  is_ascii_char c = true /\ Byte.eqb (byte_of_ascii c) x0d = false.
Proof. destruct c as [[] [] [] [] [] [] [] []]; vm_compute; try done. Qed.

Lemma digits_isascii s : digits s = true -> isascii s = true.
Proof.
  unfold digits. induction s as [|c s IH]; simpl; [done|].
  intros [Hc Hs]%andb_true_iff. apply digit_ascii in Hc as [-> _]. by apply IH.
Qed.

Lemma digits_no_cr s : digits s = true -> no_cr (encode s) = true.
Proof.
  unfold digits. induction s as [|c s IH]; simpl; [done|].
  intros [Hc Hs]%andb_true_iff. apply digit_ascii in Hc as [Ha Hb].
  rewrite encode_char_ascii by done. simpl. rewrite Hb. simpl. by apply IH.
Qed.

Lemma no_cr_app a c : no_cr (a ++ c) = no_cr a && no_cr c.
Proof. apply forallb_app. Qed.

(** The first CRLF of a buffer comes after the bytes that hold no CR. *)
Lemma find_crlf l rest :
  no_cr l = true -> find (l ++ CRLF ++ rest) CRLF = Some (length l).
Proof.
  change (CRLF ++ rest) with (x0d :: x0a :: rest). unfold CRLF.
  induction l as [|x l IH]; simpl.
  - done.
  - intros [Hx Hl]%andb_true_iff.
    assert (Byte.eqb x0d x = false) as ->.
    { destruct (Byte.eqb x0d x) eqn:E; [|done].
      apply Byte.byte_dec_bl in E. subst. done. }
    simpl. rewrite IH by done. done.
Qed.

(** [int(str(n)) == n] *)
Lemma int_str_of_int n : int (str_of_int n) = Ok n.
Proof.
  assert (H : of_option ValueError
                (option_map Z.of_int (NilZero.int_of_string (str_of_int n)))
              = Ok n).
  { unfold str_of_int. rewrite NilZero.isi.
    - simpl. by rewrite DecimalZ.of_to.
    - destruct n; simpl; try done.
      intros [= H]. by apply Unsigned.to_uint_nonnil in H.
    - destruct n; simpl; try done.
      intros [= H]. by apply Unsigned.to_uint_nonnil in H. }
  rewrite <- H. unfold int.
  destruct (str_of_int n) as [|c s] eqn:E; [done|].
  assert (c <> "+"%char).
  { intros ->. unfold str_of_int in E. destruct n; simpl in E; try done.
    pose proof (digits_uint_nz (Pos.to_uint p)) as D. rewrite E in D. done. }
  destruct c as [[] [] [] [] [] [] [] []]; try done.
Qed.

Lemma slice_from_1 {A} (x : A) l : slice_from (x :: l) 1 = l.
Proof.
  unfold slice_from, clamp. simpl length.
  replace (Z.to_nat _) with 1%nat; [done|].
  change (1 <? 0) with false. cbv iota. lia.
Qed.

Lemma slice_to_app {A} (a c : list A) :
  slice_to (a ++ c) (Z.of_nat (length a)) = a.
Proof.
  unfold slice_to, clamp. rewrite length_app.
  replace (Z.to_nat _) with (length a); [apply take_app_length|].
  destruct (Z.ltb_spec (Z.of_nat (length a)) 0); lia.
Qed.

Lemma slice_from_app {A} (a c : list A) n :
  n = Z.of_nat (length a) -> slice_from (a ++ c) n = c.
Proof.
  intros ->. unfold slice_from, clamp. rewrite length_app.
  replace (Z.to_nat _) with (length a); [apply drop_app_length|].
  destruct (Z.ltb_spec (Z.of_nat (length a)) 0); lia.
Qed.

Lemma mjoin_cons {A} (x : list A) (l : list (list A)) :
  mjoin (x :: l) = x ++ mjoin l.
Proof. reflexivity. Qed.

(* ===================================================================== *)
(** * RESP: what is encoded is decoded *)
(* ===================================================================== *)

Lemma read_token_ok l rest :
  no_cr l = true -> Resp._read_token (l ++ CRLF ++ rest) = Ok (l, rest).
Proof.
  intros H. unfold Resp._read_token, index. rewrite find_crlf by done.
  cbn [of_option mbind result_bind].
  rewrite take_app_length, <- drop_drop, drop_app_length.
  reflexivity.
Qed.

(** The length line [tag digits CRLF] of a bulk string or an array. *)
Lemma header_token (tag : bytes) n rest :
  no_cr tag = true ->
  Resp._read_token (tag ++ encode (str_of_int (Z.of_nat n)) ++ CRLF ++ rest)
  = Ok (tag ++ encode (str_of_int (Z.of_nat n)), rest).
Proof.
  intros Ht. rewrite (app_assoc tag).
  apply read_token_ok. rewrite no_cr_app, Ht. simpl.
  apply digits_no_cr, digits_str_of_nat.
Qed.

Lemma read_bulk_string_ok s rest :
  isascii s = true ->
  Resp._read_bulk_string (Resp.bulk_string (PStr s) ++ rest) = Ok (s, rest).
Proof.
  intros Hs. unfold Resp._read_bulk_string, Resp.bulk_string. cbn [str].
  rewrite !encode_app, <- !app_assoc.
  change (encode Resp.crlf) with CRLF. change (encode "$") with [x24].
  rewrite header_token by done. cbn [mbind result_bind].
  cbn [app startswith b list_byte_of_string negb Byte.eqb].
  rewrite slice_from_1, decode_encode. cbn [mbind result_bind].
  rewrite int_str_of_int. cbn [mbind result_bind].
  rewrite <- (length_encode_ascii s) by done.
  rewrite slice_to_app, decode_encode. cbn [mbind result_bind].
  rewrite app_assoc. f_equal. f_equal.
  apply slice_from_app. rewrite length_app.
  change (length CRLF) with 2%nat. lia.
Qed.

Lemma read_array_loop_ok items rest :
  Forall (fun s => isascii s = true) items ->
  Resp._read_array_loop (length items)
    (mjoin (map Resp.array_item (map istr items)) ++ rest) = Ok (items, rest).
Proof.
  induction 1 as [|s items Hs _ IH]; [reflexivity|].
  cbn [length map Resp._read_array_loop Resp.array_item istr].
  rewrite mjoin_cons, <- app_assoc, read_bulk_string_ok by done.
  cbn [mbind result_bind]. rewrite IH. reflexivity.
Qed.

Lemma read_array_ok items :
  Forall (fun s => isascii s = true) items ->
  Resp._read_array (Resp.array (map istr items)) = Ok (items, []).
Proof.
  intros H. unfold Resp._read_array, Resp.array. cbn [Resp.array_item].
  rewrite !encode_app, <- !app_assoc.
  change (encode Resp.crlf) with CRLF. change (encode "*") with [x2a].
  cbn [app]. rewrite slice_from_1.
  change (encode ?x ++ ?y) with ([] ++ encode x ++ y).
  rewrite (header_token [] (length (map istr items))
             (mjoin (map Resp.array_item (map istr items))) eq_refl).
  cbn [mbind result_bind app].
  rewrite decode_encode. cbn [mbind result_bind].
  rewrite int_str_of_int. cbn [mbind result_bind].
  rewrite Nat2Z.id, length_map.
  rewrite <- (app_nil_r (mjoin _)). by apply read_array_loop_ok.
Qed.

Lemma array_starts_with_star items :
  exists rest, Resp.array items = x2a :: rest.
Proof.
  unfold Resp.array. cbn [Resp.array_item]. rewrite encode_app.
  change (encode "*") with [x2a]. cbn [app]. eauto.
Qed.

(** C7, as amended.  The frame that encodes a non-empty array of bulk
    strings made of ASCII characters is read back by [_read_array] as that
    array with nothing left over, and [parse], given fuel for two tests of
    its loop, yields exactly one command holding that array and finishes. *)
Theorem resp_array_roundtrip (conn : Z) (first : string) (others : list string)
    (fuel : nat) :
  Forall (fun s => isascii s = true) (first :: others) ->
  (2 <= fuel)%nat ->
  let frame := Resp.array (map istr (first :: others)) in
  Resp._read_array frame = Ok (first :: others, [])
  /\ Resp.parse (Command.parse conn) fuel frame
     = ([{| Command.name := Command.verb_of (upper first);
            Command.array := first :: others;
            Command.connection := conn |}], Resp.Finished).
Proof.
  intros Hascii Hfuel frame.
  pose proof (read_array_ok _ Hascii) as Hread.
  destruct (array_starts_with_star (map istr (first :: others))) as [rest Hrest].
  subst frame. rewrite Hrest in *.
  split; [exact Hread|].
  destruct fuel as [|[|fuel]]; [lia|lia|].
  cbn [Resp.parse].
  change (startswith (x2a :: rest) (b "*")) with true. cbv iota.
  rewrite Hread. reflexivity.
Qed.

(** The amended C7 at the frame of [ECHO hi]. *)
Lemma resp_array_roundtrip_witness :
  Forall (fun s => isascii s = true) ["ECHO"; "hi"]
  /\ (2 <= 2)%nat
  /\ Resp.parse (Command.parse 50000) 2 (Resp.array [istr "ECHO"; istr "hi"])
     = ([{| Command.name := Command.ECHO; Command.array := ["ECHO"; "hi"];
            Command.connection := 50000 |}], Resp.Finished).
Proof.
  assert (H : Forall (fun s => isascii s = true) ["ECHO"; "hi"]).
  { repeat constructor. }
  split; [exact H|]. split; [lia|].
  exact (proj2 (resp_array_roundtrip 50000 "ECHO" ["hi"] 2 H (le_n 2))).
Defined.

(** C7 as stated fails on an integer: the loop of [parse] has no case for
    the frame [:5] and never reaches the end of the buffer, whatever the
    fuel. *)
Lemma resp_integer_never_decoded :
  ~ exists fuel cs,
      Resp.parse (Command.parse 0) fuel (Resp.integer 5) = (cs, Resp.Finished).
Proof.
  assert (E : forall fuel,
    Resp.parse (Command.parse 0) fuel (Resp.integer 5) = ([], Resp.OutOfFuel)).
  { induction fuel as [|fuel IH]; [reflexivity|exact IH]. }
  intros (fuel & cs & H). rewrite E in H. discriminate.
Qed.

(** Why the amended statement is about non-empty arrays of ASCII strings
    that are not nil: a simple string is consumed without a value, the empty
    array makes [Command.parse] raise, a character outside ASCII and a nil
    element are not read back. *)
Example resp_simple_string_yields_nothing :
  Resp.parse (Command.parse 0) 2 (Resp.simple_string "OK") = ([], Resp.Finished).
Proof. reflexivity. Qed.

Example resp_empty_array_raises :
  Resp.parse (Command.parse 0) 2 (Resp.array []) = ([], Resp.Raised IndexError).
Proof. reflexivity. Qed.

Example resp_non_ascii_not_read_back :
  Resp._read_array (Resp.array [istr (String (ascii_of_N 233) EmptyString)])
  = Raise UnicodeDecodeError.
Proof. reflexivity. Qed.

Example resp_nil_element_not_read_back :
  Resp._read_array (Resp.array [IVal PNone; istr "abc"]) = Raise AssertionError.
Proof. reflexivity. Qed.

(* ===================================================================== *)
(** * WAIT and the offset of the master *)
(* ===================================================================== *)





(* ===================================================================== *)
(** * The offset of a replica *)
(* ===================================================================== *)

Lemma same_replica_refl db : same_replica db db.
Proof. by split. Qed.

Lemma same_replica_trans a c d : same_replica a c -> same_replica c d -> same_replica a d.
Proof. intros [? ?] [? ?]. split; congruence. Qed.

Lemma on_replica_ret {A} (Q : A -> Prop) a : Q a -> on_replica Q (retM a).
Proof. intros HQ db db' r _ [= <- <-]. split; [apply same_replica_refl|]. by intros ? [= <-]. Qed.

Lemma on_replica_lift {A} (r : result A) : on_replica (fun _ => True) (lift r).
Proof. intros db db' r' _ [= <- <-]. split; [apply same_replica_refl|done]. Qed.

Lemma on_replica_gets {A} (f : DB -> A) : on_replica (fun _ => True) (gets f).
Proof. intros db db' r' _ [= <- <-]. split; [apply same_replica_refl|done]. Qed.

Lemma on_replica_role : on_replica (fun r => r = slave) (gets role).
Proof. intros db db' r' H [= <- <-]. split; [apply same_replica_refl|]. by intros ? [= <-]. Qed.

Lemma on_replica_master_attr : on_replica (fun _ => False) Command.master_attr.
Proof.
  intros db db' r' H. unfold Command.master_attr. rewrite H. intros [= <- <-].
  split; [apply same_replica_refl|done].
Qed.

Lemma on_replica_modify (f : DB -> DB) :
  (forall db, same_replica db (f db)) -> on_replica (fun _ => True) (modify f).
Proof. intros Hf db db' r' _ [= <- <-]. split; [apply Hf|done]. Qed.

Lemma on_replica_bind {A B} (Q1 : A -> Prop) (Q : B -> Prop) (m : M A) (k : A -> M B) :
  on_replica Q1 m -> (forall a, Q1 a -> on_replica Q (k a)) -> on_replica Q (bindM m k).
Proof.
  intros Hm Hk db db' r Hrole. unfold bindM.
  destruct (m db) as [db1 [a|e]] eqn:E.
  - destruct (Hm _ _ _ Hrole E) as [S1 HQ1]. intros Hka.
    assert (role db1 = slave) as Hrole1 by (destruct S1; congruence).
    destruct (Hk a (HQ1 a eq_refl) _ _ _ Hrole1 Hka) as [S2 HQ].
    split; [by eapply same_replica_trans|done].
  - intros [= <- <-]. destruct (Hm _ _ _ Hrole E) as [S1 _]. done.
Qed.

Lemma on_replica_weaken {A} (Q Q' : A -> Prop) (m : M A) :
  on_replica Q m -> (forall a, Q a -> Q' a) -> on_replica Q' m.
Proof. intros H HQ db db' r Hr E. destruct (H _ _ _ Hr E). split; [done|]. eauto. Qed.

Lemma on_replica_stateless {A} (f : DB -> result A) :
  on_replica (fun _ => True) (fun db => (db, f db)).
Proof. intros db db' r' _ [= <- <-]. split; [apply same_replica_refl|done]. Qed.

(** The operations of the database leave the role and the offset of a
    replica as they are. *)
Lemma same_set k v e db : same_replica db (Database.set k v e db).
Proof. by split. Qed.

Lemma same_get now k db : same_replica db (Database.get now k db).1.
Proof.
  unfold Database.get. destruct (Dict.get k (store db)) as [[v e]|]; [|by split].
  destruct (_ && _); by split.
Qed.

Lemma same_foldl {A} (f : DB -> A -> DB) l :
  (forall db a, same_replica db (f db a)) -> forall db, same_replica db (foldl f db l).
Proof.
  intros Hf. induction l as [|a l IH]; intros db; simpl; [apply same_replica_refl|].
  eapply same_replica_trans; [apply Hf|apply IH].
Qed.

Lemma same_update_replica_offset c o db :
  same_replica db (Database.update_replica_offset c o db).
Proof.
  unfold Database.update_replica_offset.
  eapply same_replica_trans; [|apply same_foldl].
  - by split.
  - intros d t. destruct (_ <=? _); by split.
Qed.

Lemma same_check_stream_triggers k i db :
  same_replica db (Database.check_stream_triggers k i db).
Proof.
  unfold Database.check_stream_triggers.
  eapply same_replica_trans; [|apply same_foldl].
  - by split.
  - intros d t. destruct (Database.condition_met _ _ _); by split.
Qed.

Lemma same_propagate c db : same_replica db (Database.propagate_command c db).
Proof.
  unfold Database.propagate_command.
  eapply same_replica_trans; [|apply same_foldl].
  - by split.
  - intros d t. by split.
Qed.

(** One step through a verb: a bind, a return, a branch. *)
Ltac replica_step :=
  match goal with
  | |- on_replica _ (bindM (gets role) _) =>
      eapply (on_replica_bind (fun r => r = slave)); [apply on_replica_role|intros ? ->]
  | |- on_replica _ (bindM Command.master_attr _) =>
      eapply (on_replica_bind (fun _ => False)); [apply on_replica_master_attr|intros ? []]
  | |- on_replica _ (bindM _ _) =>
      eapply (on_replica_bind (fun _ => True)); [|intros ? _]
  | |- on_replica _ (retM _) => apply on_replica_ret; eauto
  | |- on_replica _ (lift _) => apply on_replica_lift
  | |- on_replica _ (gets _) => apply on_replica_gets
  | |- on_replica _ (modify _) => apply on_replica_modify; intros
  | |- on_replica _ (if ?c then _ else _) => destruct c
  | |- on_replica _ (match ?x with _ => _ end) => destruct x
  end.

Lemma on_replica_get now k :
  on_replica (fun _ => True)
    (fun db => let '(db, v) := Database.get now k db in (db, Ok v)).
Proof.
  intros db db' r _. pose proof (same_get now k db) as S.
  destruct (Database.get now k db) as [d v]. intros [= <- <-]. done.
Qed.

Lemma on_replica_read request : on_replica (fun _ => True) (Command._read request).
Proof.
  unfold Command._read.
  eapply (on_replica_bind (fun _ => True)); [apply on_replica_stateless|intros res _].
  destruct (forallb _ _); by apply on_replica_ret.
Qed.

(** On a replica no verb touches the offset, and none waits: [WAIT]
    answers nothing and [XREAD BLOCK] raises. *)
Lemma respond_on_replica now c : on_replica is_return (Command._respond now c).
Proof.
  unfold Command._respond, is_return.
  destruct (Command.name c).
  - unfold Command.respond_ping. repeat replica_step.
  - unfold Command.respond_echo. repeat replica_step.
  - unfold Command.respond_set. repeat replica_step. apply same_set.
  - unfold Command.respond_get. repeat replica_step. apply on_replica_get.
  - unfold Command.respond_config. repeat replica_step.
  - unfold Command.respond_keys. repeat replica_step.
  - unfold Command.respond_info. repeat replica_step.
  - unfold Command.respond_replconf. repeat replica_step.
  - unfold Command.respond_psync. repeat replica_step.
  - unfold Command.respond_wait. repeat replica_step.
  - unfold Command.respond_type. repeat replica_step; try apply on_replica_get.
  - unfold Command.respond_xadd. repeat replica_step.
  - unfold Command.respond_xrange. repeat replica_step. apply on_replica_stateless.
  - unfold Command.respond_xread. repeat replica_step.
    + eapply on_replica_weaken; [apply on_replica_read|done].
    + unfold Command._replace_dollars. apply on_replica_stateless.
    + intros db db' r _. destruct (Stream.new_trigger _ _). intros [= <- <-]. done.
  - unfold Command.respond_unknown. repeat replica_step.
Qed.

(** What is counted is the length of the array packed again, which is the
    frame itself when the frame came out of the encoder. *)
Lemma pack_of_frame (array : list string) :
  Command._pack array = Resp.array (map istr array).
Proof. reflexivity. Qed.





(** The reply to [REPLCONF GETACK *] carries the offset from before the
    frame is counted. *)
Example getack_reports_offset_before_frame :
  let db := Run.after (Run.command 0 6379 ["REPLCONF"; "GETACK"; "*"]) Run.replica0 in
  sent db = [(6379, Resp.array [istr "REPLCONF"; istr "ACK"; istr "0"])]
  /\ slave_repl_offset db = 37.
Proof. vm_compute. repeat split. Qed.

(* ===================================================================== *)
(** * The RDB loader at startup *)
(* ===================================================================== *)

Lemma read_length_unsupported (p : Persistence.t) (x : byte) (rest : bytes) :
  Persistence.file p = x :: rest ->
  crumb x = 1 \/ crumb x = 2 ->
  Persistence._read_length p
  = Ok (Persistence.LNone, Persistence.with_file rest p).
Proof.
  intros Hfile Hcrumb.
  unfold Persistence._read_length, Persistence.read. rewrite Hfile.
  rewrite firstn_cons, take_0, skipn_cons, drop_0.
  cbn [Persistence.unpack_B mbind result_bind].
  unfold crumb in Hcrumb.
  destruct Hcrumb as [-> | ->]; reflexivity.
Qed.

Lemma read_string_unsupported (p : Persistence.t) (x : byte) (rest : bytes) :
  Persistence.file p = x :: rest ->
  crumb x = 1 \/ crumb x = 2 ->
  Persistence._read_string p = Ok (PNone, Persistence.with_file rest p).
Proof.
  intros Hfile Hcrumb. unfold Persistence._read_string.
  rewrite (read_length_unsupported p x rest Hfile Hcrumb). reflexivity.
Qed.

(** C9, as amended.  A length byte whose top two bits are 01 or 10 makes
    [_read_length] and [_read_string] answer [None] after that one byte,
    without raising: the loader goes on, and a key-value record read this
    way is installed under the key [None].  An exception raised by the
    loader (a wrong magic among them) is not caught: it leaves the
    construction of the database, on a master and on a replica. *)
Theorem rdb_loader_does_not_recover :
  (forall (p : Persistence.t) (x : byte) (rest : bytes),
     Persistence.file p = x :: rest ->
     crumb x = 1 \/ crumb x = 2 ->
     Persistence._read_length p
       = Ok (Persistence.LNone, Persistence.with_file rest p)
     /\ Persistence._read_string p = Ok (PNone, Persistence.with_file rest p))
  /\
  (forall (p : Persistence.t) (x y : byte) (rest : bytes) (px : option Z),
     Persistence.file p = x :: y :: rest ->
     crumb x = 1 \/ crumb x = 2 ->
     crumb y = 1 \/ crumb y = 2 ->
     exists p', Persistence._set_kv_pair px p = Ok p'
       /\ Persistence.file p' = rest
       /\ Persistence.store p' = Dict.set PNone (PNone, px) (Persistence.store p))
  /\
  (forall (fuel : nat) (cfg : gmap string pyval) (replid host : string)
          (master_port : Z) (content : bytes) (e : exn),
     Persistence.init fuel content [] = Some (Raise e) ->
     Database.init_master fuel cfg replid (Some content) = Some (Raise e)
     /\ Database.init_replica fuel cfg host master_port (Some content)
        = Some (Raise e))
  /\
  (forall (fuel : nat) (content : bytes),
     bytes_eqb (take 5 content) (b "REDIS") = false ->
     Persistence.init fuel content [] = Some (Raise AssertionError)).
Proof.
  repeat split.
  - by apply (read_length_unsupported p x rest).
  - by apply (read_string_unsupported p x rest).
  - intros p x y rest px Hfile Hx Hy.
    unfold Persistence._set_kv_pair.
    rewrite (read_string_unsupported p x (y :: rest) Hfile Hx).
    cbn [mbind result_bind].
    rewrite (read_string_unsupported (Persistence.with_file (y :: rest) p)
               y rest eq_refl Hy).
    cbn [mbind result_bind]. eexists. repeat split.
  - unfold Database.init_master, Database.init_store. by rewrite H.
  - unfold Database.init_replica, Database.init_store. by rewrite H.
  - intros fuel content H.
    unfold Persistence.init, Persistence._verify_magic, Persistence.read.
    cbn [Persistence.file]. by rewrite H.
Qed.

(** The amended C9 at the file [rdb_unsupported] and at a file whose magic
    is wrong. *)
Lemma rdb_loader_witness :
  (exists p', Persistence._set_kv_pair None
      {| Persistence.file := [x40; x80; xff]; Persistence.aux := [];
         Persistence.checksum := None; Persistence.db_size := None;
         Persistence.expiry_size := None; Persistence.db_number := None;
         Persistence.version := 11; Persistence.store := [] |} = Ok p'
     /\ Persistence.file p' = [xff]
     /\ Persistence.store p' = [(PNone, (PNone, None))])
  /\ Database.init_master 10 ∅ "id" (Some (b "RDBIS0011"))
     = Some (Raise AssertionError).
Proof.
  destruct rdb_loader_does_not_recover as (_ & Hkv & Hinit & Hmagic).
  split.
  - apply (Hkv {| Persistence.file := [x40; x80; xff]; Persistence.aux := [];
                  Persistence.checksum := None; Persistence.db_size := None;
                  Persistence.expiry_size := None;
                  Persistence.db_number := None;
                  Persistence.version := 11; Persistence.store := [] |}
               x40 x80 [xff] None eq_refl); [left|right]; reflexivity.
  - apply (Hinit 10%nat ∅ "id" "" 0 (b "RDBIS0011") AssertionError).
    apply Hmagic. reflexivity.
Defined.

(** C9 as stated fails both ways.  A record whose lengths are of an
    unsupported encoding does not stop the loader: the server starts, and
    its store holds an entry under the key [None].  A file with a wrong
    magic stops more than the loader: the construction of the database
    raises, and there is no server. *)
Lemma rdb_failure_not_recovered :
  (exists db, Database.init_master 10 ∅ "id" (Some Run.rdb_unsupported)
              = Some (Ok db)
     /\ store db = [(PNone, (PNone, None))])
  /\ Database.init_master 10 ∅ "id" (Some (b "RDBIS0011"))
     = Some (Raise AssertionError).
Proof. split; [eexists; split|]; vm_compute; reflexivity. Qed.

(* ===================================================================== *)
(** * Facts about [dict] and about what the verbs leave alone *)
(* ===================================================================== *)

Section DictFacts.
Context {K V : Type} `{EqDecision K}.
Implicit Types (d : list (K * V)) (k : K) (v : V).

Lemma dict_get_set_eq k v d : Dict.get k (Dict.set k v d) = Some v.
Proof.
  induction d as [|[k' v'] d IH]; simpl.
  - by rewrite decide_True.
  - destruct (decide (k = k')) as [->|Hne]; simpl.
    + by rewrite decide_True.
    + by rewrite decide_False.
Qed.

Lemma dict_get_set_ne k k' v d : k' <> k -> Dict.get k' (Dict.set k v d) = Dict.get k' d.
Proof.
  intros Hne. induction d as [|[k0 v0] d IH]; simpl.
  - by rewrite decide_False.
  - destruct (decide (k = k0)) as [->|H0]; simpl.
    + by rewrite !decide_False.
    + destruct (decide (k' = k0)); [done|apply IH].
Qed.




End DictFacts.





(* ===================================================================== *)
(** * A rejected XADD on a new key *)
(* ===================================================================== *)


(** [XADD key 0-0] is answered with the first of the two errors. *)
Lemma xadd_zero_is_rejected (now : Z) (verb key : string) (fields : list string)
    (db : DB) :
  role db = master ->
  Run.answer (Command.respond_xadd now (verb :: key :: "0-0" :: fields)) db
  = Ok (Command.Return (Some (Resp.simple_error Stream.err_zero))).
Proof.
  intros Hrole.
  unfold Run.answer, Command.respond_xadd, bindM, lift, modify, retM,
    Command.master_attr.
  change (take 2 (drop 1 (verb :: key :: "0-0" :: fields))) with [key; "0-0"].
  cbv beta iota. rewrite Hrole. unfold Stream.add. reflexivity.
Qed.




(* ===================================================================== *)
(** * SET, GET and KEYS *)
(* ===================================================================== *)

Section DictOrder.
Context {K V : Type} `{EqDecision K}.
Implicit Types (d : list (K * V)) (k : K) (v : V).

Lemma dict_get_del_ne k k' d : k' <> k -> Dict.get k' (Dict.del k d) = Dict.get k' d.
Proof.
  intros Hne. induction d as [|[k0 v0] d IH]; simpl; [done|].
  destruct (decide (k = k0)) as [->|H0]; simpl.
  - by rewrite decide_False.
  - destruct (decide (k' = k0)); [done|apply IH].
Qed.

Lemma dict_keys_del_sublist k d : sublist (Dict.keys (Dict.del k d)) (Dict.keys d).
Proof.
  induction d as [|[k0 v0] d IH]; simpl; [done|].
  destruct (decide (k = k0)); simpl.
  - by apply sublist_cons.
  - by apply sublist_skip.
Qed.

Lemma dict_wf_del k d : Dict.wf d -> Dict.wf (Dict.del k d).
Proof.
  unfold Dict.wf. intros Hd.
  eapply sublist_NoDup; [|apply dict_keys_del_sublist]. done.
Qed.

(** An assignment keeps the place of a key that is there and puts a new
    key last. *)
Lemma dict_keys_set_order k v d :
  Dict.keys (Dict.set k v d)
  = if decide (k ∈ Dict.keys d) then Dict.keys d else Dict.keys d ++ [k].
Proof.
  unfold Dict.keys. induction d as [|[k0 v0] d IH]; cbn [Dict.set map fst app].
  - destruct (decide (k ∈ [])) as [Hin|_]; [by apply elem_of_nil in Hin|done].
  - destruct (decide (k = k0)) as [->|Hne]; cbn [map fst].
    + destruct (decide (k0 ∈ k0 :: map fst d)) as [_|Hnin]; [done|].
      exfalso. apply Hnin, list_elem_of_here.
    + rewrite IH.
      destruct (decide (k ∈ map fst d)) as [Hin|Hnin];
        destruct (decide (k ∈ k0 :: map fst d)) as [Hin'|Hnin']; try done.
      * exfalso. by apply Hnin', list_elem_of_further.
      * exfalso. apply elem_of_cons in Hin' as [?|?]; done.
Qed.
End DictOrder.

(** What [SET key value] stores, on a master and on a replica. *)
Lemma store_after_set (now : Z) (verb key value : string) (db : DB) :
  store (Run.after (Command.respond_set now [verb; key; value]) db)
  = Dict.set (PStr key) (PStr value, None) (store db).
Proof.
  unfold Run.after, Command.respond_set, bindM, lift, modify, gets, retM.
  change (take 2 (drop 1 [verb; key; value])) with [key; value].
  change (length [verb; key; value] =? 5)%nat with false.
  cbn [andb Command.expiry_of].
  by destruct (role _).
Qed.

(** X1.  [SET key value] followed by [GET key], at whatever times and
    whatever the store held before: the value is stored without expiry,
    [GET] answers it as a bulk string and leaves the database as it is. *)
Theorem set_then_get (now now' : Z) (v1 v2 key value : string) (db : DB) :
  let db1 := Run.after (Command.respond_set now [v1; key; value]) db in
  Dict.get (PStr key) (store db1) = Some (PStr value, None)
  /\ Command.respond_get now' [v2; key] db1
     = (db1, Ok (Command.Return (Some (Resp.bulk_string (PStr value))))).
Proof.
  intros db1.
  assert (Hstore : Dict.get (PStr key) (store db1) = Some (PStr value, None)).
  { subst db1. rewrite store_after_set. apply dict_get_set_eq. }
  split; [exact Hstore|].
  unfold Command.respond_get, bindM, lift, retM.
  cbn [Command.item_at lookup list_lookup of_option].
  unfold Database.get. rewrite Hstore. reflexivity.
Qed.




(** X4.  [Database.get] reads or removes the entry of its key only: the
    other keys keep their entries, the streams are untouched, and no key
    comes to occur twice. *)
Theorem get_touches_one_key (now : Z) (key key' : pyval) (db : DB) :
  key' <> key ->
  let db1 := (Database.get now key db).1 in
  Dict.get key' (store db1) = Dict.get key' (store db)
  /\ stream db1 = stream db
  /\ (Dict.wf (store db) -> Dict.wf (store db1)).
Proof.
  intros Hne db1. subst db1. unfold Database.get.
  destruct (Dict.get key (store db)) as [[v e]|]; [|done].
  destruct (_ && _); [|done].
  cbn [fst store with_store stream]. split; [by apply dict_get_del_ne|].
  split; [done|]. apply dict_wf_del.
Qed.

(** X4 on a store where [a] has expired at 5 and [b] has not: reading
    [a] at 10 leaves [b]. *)
Lemma get_touches_one_key_witness :
  let db := with_store [(PStr "a", (PStr "1", Some 5)); (PStr "b", (PStr "2", None))]
              Run.master0 in
  let db1 := (Database.get 10 (PStr "a") db).1 in
  Dict.get (PStr "b") (store db1) = Dict.get (PStr "b") (store db)
  /\ stream db1 = stream db
  /\ (Dict.wf (store db) -> Dict.wf (store db1)).
Proof.
  apply (get_touches_one_key 10 (PStr "a") (PStr "b")).
  discriminate.
Defined.

(** X5.  [KEYS] after [SET key value] lists the keys in the order in which
    they were first set: a key that was there keeps its place, a new key
    comes last. *)
Theorem keys_after_set (now : Z) (verb key value : string) (db : DB) :
  let db1 := Run.after (Command.respond_set now [verb; key; value]) db in
  let keys := Dict.keys (store db) in
  Command.respond_keys db1
  = (db1, Ok (Command.Return (Some (Resp.array (map IVal
       (if decide (PStr key ∈ keys) then keys else keys ++ [PStr key])))))).
Proof.
  intros db1 keys. unfold Command.respond_keys, bindM, gets, retM.
  subst db1. rewrite store_after_set, dict_keys_set_order. reflexivity.
Qed.

(* ===================================================================== *)
(** * RESP: buffers of several frames *)
(* ===================================================================== *)

Lemma read_array_rest items rest :
  Forall (fun s => isascii s = true) items ->
  Resp._read_array (Resp.array (map istr items) ++ rest) = Ok (items, rest).
Proof.
  intros H. unfold Resp._read_array, Resp.array. cbn [Resp.array_item].
  rewrite !encode_app, <- !app_assoc.
  change (encode Resp.crlf) with CRLF. change (encode "*") with [x2a].
  cbn [app]. rewrite slice_from_1.
  change (encode ?x ++ ?y) with ([] ++ encode x ++ y).
  rewrite (header_token [] (length (map istr items))
             (mjoin (map Resp.array_item (map istr items)) ++ rest) eq_refl).
  cbn [mbind result_bind app].
  rewrite decode_encode. cbn [mbind result_bind].
  rewrite int_str_of_int. cbn [mbind result_bind].
  rewrite Nat2Z.id, length_map.
  by apply read_array_loop_ok.
Qed.

(** One turn of the loop of [parse] on a frame followed by [rest]. *)
Lemma parse_array_step (conn : Z) (items : list string) (rest : bytes) (fuel : nat) :
  well_formed items ->
  Resp.parse (Command.parse conn) (S fuel) (Resp.array (map istr items) ++ rest)
  = let '(cs, pe) := Resp.parse (Command.parse conn) fuel rest in
    (command_of conn items :: cs, pe).
Proof.
  intros [Hne Hascii].
  destruct (array_starts_with_star (map istr items)) as [tl Htl].
  pose proof (read_array_rest items rest Hascii) as Hread.
  rewrite Htl in *. cbn [app] in *. cbn [Resp.parse].
  change (startswith (x2a :: ?r) (b "*")) with true. cbv iota.
  rewrite Hread.
  destruct items as [|first others]; [done|].
  cbn [Command.parse Command.item_at lookup list_lookup of_option mbind result_bind].
  reflexivity.
Qed.

(** One turn of the loop on a simple string followed by [rest]. *)
Lemma parse_plus_line {C} (cp : list string -> result C)
    (line rest : bytes) (fuel : nat) :
  no_cr line = true ->
  Resp.parse cp (S fuel) (plus_line line ++ rest) = Resp.parse cp fuel rest.
Proof.
  intros Hline. unfold plus_line. cbn [app Resp.parse].
  change (startswith (x2b :: ?r) (b "*")) with false.
  change (startswith (x2b :: ?r) (b "+")) with true. cbv iota.
  rewrite <- app_assoc.
  change (x2b :: line ++ CRLF ++ rest) with ((x2b :: line) ++ CRLF ++ rest).
  rewrite read_token_ok; [reflexivity|].
  simpl. exact Hline.
Qed.

Lemma simple_string_plus_line (s : string) :
  Resp.simple_string s = plus_line (encode s).
Proof.
  unfold Resp.simple_string, plus_line. rewrite !encode_app. reflexivity.
Qed.

Lemma no_cr_str_of_int n : no_cr (encode (str_of_int n)) = true.
Proof.
  unfold str_of_int. destruct n as [|p|p]; [reflexivity| |].
  - apply digits_no_cr. simpl. apply digits_uint_nz.
  - change (NilZero.string_of_int (Z.to_int (Z.neg p)))
      with (String "-" (NilZero.string_of_uint (Pos.to_uint p))).
    cbn [encode]. change (encode_char "-") with [x2d]. cbn [app no_cr forallb].
    change (negb (Byte.eqb x2d x0d)) with true. cbn [andb].
    apply digits_no_cr, digits_uint_nz.
Qed.

(** The reply to [PSYNC] is read as a simple string and an RDB file. *)
Lemma parse_fullresync {C} (cp : list string -> result C) (db : DB) (fuel : nat) :
  no_cr (encode (master_replid db)) = true ->
  (3 <= fuel)%nat ->
  Resp.parse cp fuel (fullresync db) = ([], Resp.Finished).
Proof.
  intros Hid Hfuel. unfold fullresync.
  rewrite simple_string_plus_line, !encode_app.
  destruct fuel as [|fuel]; [lia|].
  rewrite parse_plus_line.
  - destruct fuel as [|[|fuel]]; [lia|lia|]. reflexivity.
  - rewrite !no_cr_app, Hid, no_cr_str_of_int. reflexivity.
Qed.

(** X6.  A buffer that starts with several command frames, each a
    non-empty array of ASCII bulk strings as the encoder writes it: one
    turn of the loop per frame yields one command per frame, in order, with
    the verb looked up from the upper-cased first item; the bytes that
    follow are parsed as if they stood alone. *)
Theorem parse_frames (conn : Z) (frames : list (list string)) (rest : bytes)
    (fuel : nat) :
  Forall well_formed frames ->
  Resp.parse (Command.parse conn) (length frames + fuel)
    (mjoin (map (fun items => Resp.array (map istr items)) frames) ++ rest)
  = let '(cs, pe) := Resp.parse (Command.parse conn) fuel rest in
    (map (command_of conn) frames ++ cs, pe).
Proof.
  induction 1 as [|items frames Hitems _ IH].
  - cbn [map length Nat.add app]. change (mjoin []) with (@nil byte).
    cbn [app]. by destruct (Resp.parse _ fuel rest).
  - cbn [map length Nat.add]. rewrite mjoin_cons, <- app_assoc.
    rewrite parse_array_step by done. rewrite IH.
    by destruct (Resp.parse _ fuel rest).
Qed.

(** X6 at a buffer that holds [SET k v], [get k] and a simple string. *)
Lemma parse_frames_witness :
  Resp.parse (Command.parse 50000) 4
    (mjoin [Resp.array [istr "SET"; istr "k"; istr "v"];
            Resp.array [istr "get"; istr "k"]] ++ Resp.simple_string "OK")
  = ([{| Command.name := Command.SET; Command.array := ["SET"; "k"; "v"];
         Command.connection := 50000 |};
      {| Command.name := Command.GET; Command.array := ["get"; "k"];
         Command.connection := 50000 |}], Resp.Finished).
Proof.
  apply (parse_frames 50000 [["SET"; "k"; "v"]; ["get"; "k"]]
           (Resp.simple_string "OK") 2).
  repeat constructor; discriminate.
Defined.

(** X7.  Simple strings in front of a buffer are consumed one per turn of
    the loop and yield nothing: what is parsed is what follows them.  This
    is how a replica reads [+PONG] and [+OK]. *)
Theorem parse_skips_simple_strings {C} (cp : list string -> result C)
    (lines : list bytes) (rest : bytes) (fuel : nat) :
  Forall (fun line => no_cr line = true) lines ->
  Resp.parse cp (length lines + fuel) (mjoin (map plus_line lines) ++ rest)
  = Resp.parse cp fuel rest.
Proof.
  induction 1 as [|line lines Hline _ IH]; [reflexivity|].
  cbn [map length Nat.add]. rewrite mjoin_cons, <- app_assoc.
  by rewrite parse_plus_line.
Qed.

(** X7 at [+PONG] and [+OK] in front of a [PING] frame. *)
Lemma parse_skips_simple_strings_witness :
  Resp.parse (Command.parse 6379) 4
    (Resp.simple_string "PONG" ++ Resp.simple_string "OK" ++ Resp.array [istr "PING"])
  = Resp.parse (Command.parse 6379) 2 (Resp.array [istr "PING"]).
Proof.
  apply (parse_skips_simple_strings (Command.parse 6379)
           [encode "PONG"; encode "OK"] (Resp.array [istr "PING"]) 2).
  repeat constructor.
Defined.

(** X8.  On a master whose replication id holds no carriage return,
    [PSYNC] registers the connection as a replica at offset 0 and answers
    with the [FULLRESYNC] line followed by the length-prefixed RDB file;
    this answer is parsed to its end without yielding a command. *)
Theorem psync_reply_is_consumed (conn conn' : Z) (db : DB) (fuel : nat) :
  role db = master ->
  no_cr (encode (master_replid db)) = true ->
  (3 <= fuel)%nat ->
  Command.respond_psync conn db
  = (Database.register_replica {| port := conn; replication_offset := 0 |} db,
     Ok (Command.Return (Some (fullresync db))))
  /\ Resp.parse (Command.parse conn') fuel (fullresync db) = ([], Resp.Finished).
Proof.
  intros Hrole Hid Hfuel. split; [|by apply parse_fullresync].
  unfold Command.respond_psync, bindM, gets, modify, retM, Command.master_attr.
  rewrite Hrole. cbn [role with_replicas Database.register_replica].
  rewrite Hrole. reflexivity.
Qed.

(** X8 on a master that has just started, asked by a replica from port
    50001. *)
Lemma psync_reply_is_consumed_witness :
  Command.respond_psync 50001 Run.master0
  = (Database.register_replica {| port := 50001; replication_offset := 0 |} Run.master0,
     Ok (Command.Return (Some (fullresync Run.master0))))
  /\ Resp.parse (Command.parse 6379) 3 (fullresync Run.master0) = ([], Resp.Finished).
Proof.
  apply (psync_reply_is_consumed 50001 6379 Run.master0 3).
  - reflexivity.
  - vm_compute. reflexivity.
  - lia.
Defined.

(* ===================================================================== *)
(** * Streams: what XADD, XRANGE and XREAD do *)
(* ===================================================================== *)

Lemma append_snoc cur c s : (cur +:+ String c EmptyString) +:+ s = cur +:+ String c s.
Proof.
  induction cur as [|a cur IH]; [reflexivity|].
  change (String a ((cur +:+ String c "") +:+ s) = String a (cur +:+ String c s)).
  by f_equal.
Qed.

Lemma append_empty_r s : s +:+ "" = s.
Proof.
  induction s as [|a s IH]; [reflexivity|].
  change (String a (s +:+ "") = String a s). by f_equal.
Qed.

Lemma split_aux_no_dash cur s :
  no_dash s = true -> split_aux "-" cur s = [cur +:+ s].
Proof.
  unfold no_dash. revert cur. induction s as [|c s IH]; intros cur; simpl.
  - by rewrite append_empty_r.
  - intros [Hc Hs]%andb_true_iff. apply negb_true_iff in Hc. rewrite Hc.
    rewrite IH by done. by rewrite append_snoc.
Qed.

Lemma split_aux_dash cur ts seq :
  no_dash ts = true -> no_dash seq = true ->
  split_aux "-" cur (ts +:+ "-" +:+ seq) = [cur +:+ ts; seq].
Proof.
  unfold no_dash at 1. revert cur. induction ts as [|c ts IH]; intros cur; simpl.
  - intros _ Hseq. rewrite append_empty_r. f_equal. by apply (split_aux_no_dash "").
  - intros [Hc Hs]%andb_true_iff Hseq. apply negb_true_iff in Hc. rewrite Hc.
    rewrite IH by done. by rewrite append_snoc.
Qed.

Lemma split2_id ts seq :
  no_dash ts = true -> no_dash seq = true ->
  split2 "-" (ts +:+ "-" +:+ seq) = Ok (ts, seq).
Proof.
  intros Hts Hseq. unfold split2, split. by rewrite split_aux_dash.
Qed.

Lemma digit_not_dash c : is_digit c = true -> Ascii.eqb c "-" = false.
Proof. destruct c as [[] [] [] [] [] [] [] []]; vm_compute; try done. Qed.

Lemma digits_no_dash s : digits s = true -> no_dash s = true.
Proof.
  unfold digits, no_dash. induction s as [|c s IH]; simpl; [done|].
  intros [Hc Hs]%andb_true_iff. rewrite (digit_not_dash c Hc). simpl. by apply IH.
Qed.

Lemma digits_str_of_int_nonneg n : 0 <= n -> digits (str_of_int n) = true.
Proof.
  intros Hn. rewrite <- (Z2Nat.id n Hn). apply digits_str_of_nat.
Qed.

Lemma search_no_dash run s : no_dash s = true -> search_ts_star_aux run s = None.
Proof.
  unfold no_dash. revert run. induction s as [|c s IH]; intros run; simpl; [done|].
  intros [Hc Hs]%andb_true_iff. apply negb_true_iff in Hc. rewrite Hc. simpl.
  destruct (is_digit c); by apply IH.
Qed.

Lemma search_digits_star run ms :
  digits ms = true -> search_ts_star_aux run (ms +:+ "-*") = Some (run +:+ ms).
Proof.
  unfold digits. revert run. induction ms as [|c ms IH]; intros run; simpl.
  - by rewrite append_empty_r.
  - intros [Hc Hs]%andb_true_iff. rewrite (digit_not_dash c Hc), Hc. simpl.
    rewrite IH by done. by rewrite append_snoc.
Qed.

Lemma truthy_id (ts seq : string) : truthy_str (ts +:+ "-" +:+ seq) = true.
Proof. destruct ts; reflexivity. Qed.

(** X9.  Whatever the identifier, [Stream.add] touches the stream of its
    key only, never drops or reorders the entries that are there, and
    appends at most one entry: the fields it was given, under the
    identifier that it answers as a bulk string. *)
Theorem add_keeps_entries (now : Z) (key : string) (entry : Stream.entry)
    (st : gmap string (list Stream.entry)) :
  let old := default [] (st !! key) in
  let '(st', r) := Stream.add now key entry st in
  (forall k, k <> key -> st' !! k = st !! k)
  /\ (st' !! key = Some old
      \/ exists id, st' !! key = Some (old ++ [(id, entry.2)])
                    /\ r = Ok (Resp.bulk_string (PStr id))).
Proof.
  intros old. subst old. unfold Stream.add. set (old := default [] (st !! key)).
  destruct (String.eqb entry.1 "0-0");
    [|destruct (Stream.resolve now entry.1 old) as [[id|]|e]];
    lazy beta iota.
  - split.
    + intros k Hk. by rewrite lookup_insert_ne.
    + left. apply lookup_insert_eq.
  - split; [intros k Hk; by rewrite !lookup_insert_ne|].
    right. exists id. split; [apply lookup_insert_eq|done].
  - split; [intros k Hk; by rewrite lookup_insert_ne|].
    left. apply lookup_insert_eq.
  - split; [intros k Hk; by rewrite lookup_insert_ne|].
    left. apply lookup_insert_eq.
Qed.

(** X10 at the identifier 2-0 on a stream whose top item is 1-0. *)
Lemma add_explicit_id_witness :
  let st : gmap string (list Stream.entry) := {["s"%string := [("1-0"%string, ["f"; "v"]%string)]]} in
  Stream.add 0 "s" ("2-0", ["g"; "w"]) st
  = if Py.str_le "2-0" "1-0"
    then (st, Ok (Resp.simple_error Stream.err_top))
    else (<["s"%string := ([] ++ [("1-0"%string, ["f"; "v"]%string)])
                          ++ [("2-0"%string, ["g"; "w"]%string)]]> st,
          Ok (Resp.bulk_string (PStr "2-0"))).
Proof.
  intros st.
  apply (add_explicit_id 0 "s" "2-0" ["g"; "w"] st [] "1-0" ["f"; "v"] "1" "0").
  - reflexivity.
  - reflexivity.
  - reflexivity.
  - vm_compute. reflexivity.
  - reflexivity.
  - reflexivity.
Defined.

(** X11.  [XADD key *] on a stream whose top item is [ts-n]: the entry is
    appended under [ts-(n+1)], whatever the clock says, and that
    identifier is the answer. *)
Theorem add_star_increments_top (now n : Z) (key ts : string)
    (fields last_fields : list string)
    (st : gmap string (list Stream.entry)) (entries : list Stream.entry) :
  st !! key = Some (entries ++ [(ts +:+ "-" +:+ str_of_int n, last_fields)]) ->
  no_dash ts = true -> 0 <= n ->
  Stream.add now key ("*", fields) st
  = (<[key := (entries ++ [(ts +:+ "-" +:+ str_of_int n, last_fields)])
              ++ [(ts +:+ "-" +:+ str_of_int (n + 1), fields)]]> st,
     Ok (Resp.bulk_string (PStr (ts +:+ "-" +:+ str_of_int (n + 1))))).
Proof.
  intros Hkey Hts Hn.
  unfold Stream.add. cbn [fst snd]. rewrite Hkey.
  change (String.eqb "*" "0-0") with false. cbv iota.
  cbn [default from_option]. unfold Datatypes.id.
  rewrite (insert_id st key _ Hkey).
  unfold Stream.resolve, Stream.last_parts. rewrite last_snoc, truthy_id.
  rewrite split2_id by (done || by apply digits_no_dash, digits_str_of_int_nonneg).
  cbn [mbind result_bind]. change (search_ts_star "*") with (@None string).
  change (String.eqb "*" "*") with true. cbv iota.
  rewrite int_str_of_int. reflexivity.
Qed.

(** X11 at a stream whose top item is 5-9, at a time far from 5. *)
Lemma add_star_increments_top_witness :
  let st : gmap string (list Stream.entry) := {["s"%string := [("5-9"%string, ["f"; "v"]%string)]]} in
  Stream.add 1700000000000 "s" ("*", ["g"; "w"]) st
  = (<["s"%string := ([] ++ [("5-9"%string, ["f"; "v"]%string)])
                     ++ [("5-10"%string, ["g"; "w"]%string)]]> st,
     Ok (Resp.bulk_string (PStr "5-10"))).
Proof.
  intros st.
  apply (add_star_increments_top 1700000000000 9 "s" "5" ["g"; "w"] ["f"; "v"] st []).
  - vm_compute. reflexivity.
  - reflexivity.
  - lia.
Defined.

(** X12.  [XADD key ms-*] on a key without entries, [ms] a string of
    digits: the sequence number is 0, or 1 when [ms] is the string [0]
    (and only then: for [00] it is 0). *)
Theorem add_partial_id_on_empty_stream (now : Z) (key ms : string) (fields : list string)
    (st : gmap string (list Stream.entry)) :
  default [] (st !! key) = [] ->
  digits ms = true ->
  let id := ms +:+ "-" +:+ (if String.eqb ms "0" then "1" else "0") in
  Stream.add now key (ms +:+ "-*", fields) st
  = (<[key := [(id, fields)]]> st, Ok (Resp.bulk_string (PStr id))).
Proof.
  intros Hempty Hms id. unfold Stream.add. cbn [fst snd]. rewrite Hempty.
  assert (String.eqb (ms +:+ "-*") "0-0" = false) as ->.
  { apply String.eqb_neq. intros E.
    pose proof (search_digits_star "" ms Hms) as S. rewrite E in S. done. }
  unfold Stream.resolve, Stream.last_parts. cbn [last mbind result_bind].
  unfold search_ts_star. rewrite search_digits_star by done.
  change ("" +:+ ms) with ms.
  rewrite insert_insert_eq. subst id.
  destruct (String.eqb ms "0"); reflexivity.
Qed.

(** X12 at [00-*] on a server without streams. *)
Lemma add_partial_id_witness :
  Stream.add 0 "s" ("00-*", ["f"; "v"]) ∅
  = (<["s"%string := [("00-0"%string, ["f"; "v"]%string)]]> ∅,
     Ok (Resp.bulk_string (PStr "00-0"))).
Proof.
  apply (add_partial_id_on_empty_stream 0 "s" "00" ["f"; "v"] ∅).
  - reflexivity.
  - reflexivity.
Defined.

(** X13.  On a key that has a stream, [Stream.range] answers the entries
    that pass the two comparisons, in the order of the stream; from [-]
    to [+] it answers all of them. *)
Theorem range_selects_in_order (key start end_ : string)
    (st : gmap string (list Stream.entry)) (entries : list Stream.entry) :
  st !! key = Some entries ->
  exists found,
    Stream.range key start end_ st = Ok found
    /\ sublist found entries
    /\ (forall e, e ∈ found <-> e ∈ entries /\ Stream.test start end_ e = true)
    /\ Stream.range key "-" "+" st = Ok entries.
Proof.
  intros Hkey. unfold Stream.range. rewrite Hkey.
  exists (List.filter (Stream.test start end_) entries). split; [done|].
  split; [|split].
  - induction entries as [|e l IH] in |- *; simpl; [done|].
    destruct (Stream.test start end_ e); [by apply sublist_skip|by apply sublist_cons].
  - intros e. rewrite !list_elem_of_In. apply filter_In.
  - f_equal. clear. induction entries as [|e l IH]; simpl; [done|]. by rewrite IH.
Qed.

(** X13 at a stream of three entries read from 2-0 to 3-0. *)
Lemma range_selects_in_order_witness :
  let entries : list Stream.entry :=
    [("1-0", ["a"; "1"]); ("2-0", ["b"; "2"]); ("3-0", ["c"; "3"])]%string in
  let st : gmap string (list Stream.entry) := {["s"%string := entries]} in
  exists found,
    Stream.range "s" "2-0" "3-0" st = Ok found
    /\ sublist found entries
    /\ (forall e, e ∈ found <-> e ∈ entries /\ Stream.test "2-0" "3-0" e = true)
    /\ Stream.range "s" "-" "+" st = Ok entries.
Proof.
  intros entries st.
  apply (range_selects_in_order "s" "2-0" "3-0" st entries).
  vm_compute. reflexivity.
Defined.

(** X14.  On a key that has no stream, [Stream.range] filters [None]:
    [XRANGE key start end] raises [TypeError], and so does
    [XREAD STREAMS key start] once [inc_id] has accepted [start]; the
    database is left as it is and nothing is answered. *)
Theorem read_of_missing_stream_raises (v key start end_ sub next : string) (db : DB) :
  stream db !! key = None ->
  Command.respond_xrange [v; key; start; end_] db = (db, Raise TypeError)
  /\ (upper sub = "STREAMS"%string -> Utils.inc_id start = Ok next ->
      Command.respond_xread [v; sub; key; start] db = (db, Raise TypeError)).
Proof.
  intros Hkey. split.
  - unfold Command.respond_xrange, bindM, lift, retM. cbn [drop].
    unfold Stream.range. by rewrite Hkey.
  - intros Hsub Hinc.
    unfold Command.respond_xread, bindM, lift, retM.
    cbn [Command.item_at lookup list_lookup of_option]. rewrite Hsub.
    change (String.eqb "STREAMS" "STREAMS") with true. cbv iota.
    unfold Command._read, bindM.
    change (Utils.to_pairs (drop 2 [v; sub; key; start])) with [(key, start)].
    cbn [Command._read_streams]. rewrite Hinc. cbn [mbind result_bind].
    unfold Stream.range. by rewrite Hkey.
Qed.

(** X14 on a master that has just started. *)
Lemma read_of_missing_stream_witness :
  Command.respond_xrange ["XRANGE"; "s"; "-"; "+"] Run.master0
    = (Run.master0, Raise TypeError)
  /\ Command.respond_xread ["XREAD"; "streams"; "s"; "0-0"] Run.master0
    = (Run.master0, Raise TypeError).
Proof.
  destruct (read_of_missing_stream_raises "XRANGE" "s" "-" "+" "streams" "0-1"
              Run.master0 eq_refl) as [H1 _].
  destruct (read_of_missing_stream_raises "XREAD" "s" "0-0" "+" "streams" "0-1"
              Run.master0 eq_refl) as [_ H2].
  split; [exact H1|]. apply H2; reflexivity.
Defined.

(** X15.  [inc_id] on [ts-n], [ts] without dash and [n] a natural number
    in decimal: the sequence number goes up by one and the first part is
    kept as written. *)
Theorem inc_id_increments (ts : string) (n : Z) :
  no_dash ts = true -> 0 <= n ->
  Utils.inc_id (ts +:+ "-" +:+ str_of_int n) = Ok (ts +:+ "-" +:+ str_of_int (n + 1)).
Proof.
  intros Hts Hn. unfold Utils.inc_id.
  rewrite split2_id by (done || by apply digits_no_dash, digits_str_of_int_nonneg).
  cbn [mbind result_bind]. rewrite int_str_of_int. reflexivity.
Qed.

(** X15 at 007-99. *)
Lemma inc_id_increments_witness : Utils.inc_id "007-99" = Ok "007-100"%string.
Proof.
  apply (inc_id_increments "007" 99).
  - reflexivity.
  - lia.
Defined.

(** X16.  [to_pairs] pairs the first half of the array with the second
    half, item by item; the last item of an array of odd length is left
    out. *)
Theorem to_pairs_by_halves {A} (keys values extra : list A) :
  length keys = length values -> (length extra <= 1)%nat ->
  Utils.to_pairs (keys ++ values ++ extra) = zip keys values.
Proof.
  intros Hlen Hextra. unfold Utils.to_pairs.
  assert (length (keys ++ values ++ extra) / 2 = length keys)%nat as ->.
  { rewrite !length_app, <- Hlen. symmetry.
    apply (Nat.div_unique _ 2 _ (length extra)); lia. }
  rewrite take_app_length, drop_app_length.
  revert values Hlen. induction keys as [|k keys IH]; intros [|v values] Hlen;
    simpl in *; try done. f_equal. apply IH. lia.
Qed.

(** X16 at two keys, two identifiers and one item more. *)
Lemma to_pairs_by_halves_witness :
  Utils.to_pairs (["s"; "t"] ++ ["0-0"; "5-1"] ++ ["x"] : list string)
  = [("s"%string, "0-0"%string); ("t"%string, "5-1"%string)].
Proof.
  apply (to_pairs_by_halves (["s"; "t"] : list string) ["0-0"; "5-1"] ["x"]).
  - reflexivity.
  - simpl. lia.
Defined.

(** X17.  [_replace_dollars] of [XREAD BLOCK ms STREAMS ...].  With one
    stream the [$] is replaced by the identifier of its top item.  With
    two streams [k1 k2 $ $] the pairs are read by halves but written at
    [4 + 2*i + 1]: the place of [k2] receives the top of [k1], the first
    [$] stays, and the last place receives the top of [k2]. *)
Theorem replace_dollars_one_and_two_streams (v blk t s k1 k2 : string)
    (e1 e2 : list Stream.entry) (db : DB) :
  stream db !! k1 = Some e1 ->
  stream db !! k2 = Some e2 ->
  Command._replace_dollars [v; blk; t; s; k1; "$"] db
    = (db, Ok [v; blk; t; s; k1; top_id e1])
  /\ Command._replace_dollars [v; blk; t; s; k1; k2; "$"; "$"] db
    = (db, Ok [v; blk; t; s; k1; top_id e1; "$"; top_id e2]).
Proof.
  intros H1 H2. unfold Command._replace_dollars, top_id.
  change (Utils.to_pairs (drop 4 [v; blk; t; s; k1; "$"])) with [(k1, "$"%string)].
  change (Utils.to_pairs (drop 4 [v; blk; t; s; k1; k2; "$"; "$"]))
    with [(k1, "$"%string); (k2, "$"%string)].
  cbn [Command._replace_dollars_loop]. change (String.eqb "$" "$") with true. cbv iota.
  unfold Stream.read. rewrite H1, H2. split; reflexivity.
Qed.

(** X17 on the streams [s], of top 1-0, and [t], of top 7-3. *)
Lemma replace_dollars_witness :
  let db := with_stream {["s"%string := [("1-0"%string, ["f"; "v"]%string)];
                          "t"%string := [("7-3"%string, ["g"; "w"]%string)]]}
              Run.master0 in
  Command._replace_dollars ["XREAD"; "BLOCK"; "0"; "STREAMS"; "s"; "$"] db
    = (db, Ok ["XREAD"; "BLOCK"; "0"; "STREAMS"; "s"; "1-0"]%string)
  /\ Command._replace_dollars ["XREAD"; "BLOCK"; "0"; "STREAMS"; "s"; "t"; "$"; "$"] db
    = (db, Ok ["XREAD"; "BLOCK"; "0"; "STREAMS"; "s"; "1-0"; "$"; "7-3"]%string).
Proof.
  intros db.
  apply (replace_dollars_one_and_two_streams "XREAD" "BLOCK" "0" "STREAMS" "s" "t"
           [("1-0"%string, ["f"; "v"]%string)] [("7-3"%string, ["g"; "w"]%string)] db).
  - vm_compute. reflexivity.
  - vm_compute. reflexivity.
Defined.

(* ===================================================================== *)
(** * Triggers, acknowledgements and propagation *)
(* ===================================================================== *)

Lemma is_set_set (e e' : Event.t) (h : Event.heap) :
  Event.is_set e (Event.set e' h) = true
  <-> Event.is_set e h = true \/ (e = e' /\ (e < length h)%nat).
Proof.
  unfold Event.is_set, Event.set, Event.t, Event.heap in *.
  destruct (decide (e = e')) as [<-|Hne].
  - destruct (decide (e < length h)%nat) as [Hlt|Hge].
    + rewrite list_lookup_insert_eq by done. simpl. split; [intros _; by right|done].
    + rewrite list_insert_ge by lia. split; [by left|]. intros [?|[_ ?]]; [done|lia].
  - rewrite list_lookup_insert_ne by done. split; [by left|]. intros [?|[? _]]; done.
Qed.

Lemma length_set (e : Event.t) (h : Event.heap) : length (Event.set e h) = length h.
Proof. unfold Event.set, Event.t, Event.heap in *. apply length_insert. Qed.

(** A fold that sets the events of the elements that pass a test. *)
Lemma fold_set_events {T} (P : T -> bool) (ev : T -> Event.t) (l : list T)
    (h : Event.heap) (e : Event.t) :
  let h' := foldl (fun h t => if P t then Event.set (ev t) h else h) h l in
  length h' = length h
  /\ (Event.is_set e h' = true
      <-> Event.is_set e h = true
          \/ ((e < length h)%nat /\ exists t, t ∈ l /\ ev t = e /\ P t = true)).
Proof.
  revert h. induction l as [|t l IH]; intros h; cbn [foldl].
  - split; [done|]. split; [by left|]. intros [?|[_ (t & Ht & _)]]; [done|].
    by apply elem_of_nil in Ht.
  - destruct (IH (if P t then Event.set (ev t) h else h)) as [Hlen Hiff].
    split.
    + rewrite Hlen. destruct (P t); [apply length_set|done].
    + rewrite Hiff. clear Hiff Hlen IH. destruct (P t) eqn:HP.
      * rewrite is_set_set, length_set. split.
        -- intros [[?|[-> ?]]|[? (t' & Ht' & ? & ?)]].
           ++ by left.
           ++ right. split; [done|]. exists t. split; [apply list_elem_of_here|done].
           ++ right. split; [done|]. exists t'. split; [by apply list_elem_of_further|done].
        -- intros [?|[? (t' & Ht' & Hev & HP')]]; [by left; left|].
           apply elem_of_cons in Ht' as [->|Ht'].
           ++ left. right. done.
           ++ right. split; [done|]. by exists t'.
      * split.
        -- intros [?|[? (t' & Ht' & ? & ?)]]; [by left|].
           right. split; [done|]. exists t'. split; [by apply list_elem_of_further|done].
        -- intros [?|[? (t' & Ht' & Hev & HP')]]; [by left|].
           apply elem_of_cons in Ht' as [->|Ht']; [congruence|].
           right. split; [done|]. by exists t'.
Qed.

Lemma with_events_eta db : with_events (events db) db = db.
Proof. by destruct db. Qed.

(** The same fold on the database: only the heap of events moves. *)
Lemma fold_events_db {T} (P : DB -> T -> bool) (P0 : T -> bool) (ev : T -> Event.t)
    (db : DB) :
  (forall h t, P (with_events h db) t = P0 t) ->
  forall l h,
    foldl (fun d t => if P d t then with_events (Event.set (ev t) (events d)) d else d)
          (with_events h db) l
    = with_events (foldl (fun h t => if P0 t then Event.set (ev t) h else h) h l) db.
Proof.
  intros HP. induction l as [|t l IH]; intros h; cbn [foldl]; [done|].
  rewrite HP. destruct (P0 t); [|apply IH].
  change (with_events (Event.set (ev t) (events (with_events h db))) (with_events h db))
    with (with_events (Event.set (ev t) h) db).
  apply IH.
Qed.

Lemma check_stream_triggers_events key id db :
  let live := List.filter
    (fun t => negb (Event.is_set (Stream.st_event t) (events db))) (stream_triggers db) in
  Database.check_stream_triggers key id db
  = with_events
      (foldl (fun h t => if Database.condition_met key id (Stream.st_conditions t)
                         then Event.set (Stream.st_event t) h else h)
             (events db) live)
      (with_stream_triggers live db).
Proof.
  intros live. unfold Database.check_stream_triggers. fold live.
  cbn [stream_triggers with_stream_triggers].
  rewrite <- (with_events_eta (with_stream_triggers live db)) at 1.
  by rewrite (fold_events_db
    (fun _ t => Database.condition_met key id (Stream.st_conditions t))
    (fun t => Database.condition_met key id (Stream.st_conditions t))).
Qed.

(** X18.  [check_stream_triggers key id] creates no event and clears
    none; an event is set afterwards exactly when it was set before or
    belongs to a listed trigger one of whose conditions is on [key] with
    an identifier below [id] as strings; and the triggers that stay listed
    are those whose event was not set at the call. *)
Theorem check_stream_triggers_fires (key id : string) (db : DB) (e : Event.t) :
  let db' := Database.check_stream_triggers key id db in
  length (events db') = length (events db)
  /\ (Event.is_set e (events db') = true
      <-> Event.is_set e (events db) = true
          \/ ((e < length (events db))%nat
              /\ exists t, t ∈ stream_triggers db /\ Stream.st_event t = e
                           /\ Database.condition_met key id (Stream.st_conditions t) = true))
  /\ (forall t, t ∈ stream_triggers db' <->
                t ∈ stream_triggers db
                /\ Event.is_set (Stream.st_event t) (events db) = false).
Proof.
  intros db'. subst db'.
  rewrite check_stream_triggers_events. cbn [events stream_triggers with_events with_stream_triggers].
  pose proof (fold_set_events
    (fun t => Database.condition_met key id (Stream.st_conditions t))
    Stream.st_event
    (List.filter (fun t => negb (Event.is_set (Stream.st_event t) (events db)))
       (stream_triggers db)) (events db) e) as [Hlen Hiff].
  split; [exact Hlen|]. split.
  - rewrite Hiff. split.
    + intros [?|[? (t & Ht & ? & ?)]]; [by left|]. right. split; [done|].
      exists t. apply list_elem_of_In, filter_In in Ht as [Ht _].
      by rewrite <- list_elem_of_In in Ht.
    + intros [?|[? (t & Ht & Hev & HP)]]; [by left|].
      destruct (Event.is_set e (events db)) eqn:Hset; [by left|].
      right. split; [done|]. exists t. split; [|done].
      apply list_elem_of_In, filter_In. split; [by apply list_elem_of_In|].
      by rewrite Hev, Hset.
  - intros t. rewrite list_elem_of_In, filter_In, <- list_elem_of_In.
    by rewrite negb_true_iff.
Qed.

Lemma update_replica_offset_eq conn offset db :
  let live := List.filter
    (fun t => negb (Event.is_set (wt_event t) (events db))) (wait_triggers db) in
  let reps := map (fun r => if conn =? port r then update_offset offset r else r)
                  (replicas db) in
  let db0 := with_replicas reps (with_wait_triggers live db) in
  Database.update_replica_offset conn offset db
  = with_events
      (foldl (fun h t => if wt_num_replicas t
                            <=? Database.replication_count_acks_by_offset
                                  (wt_master_offset t) db0
                         then Event.set (wt_event t) h else h)
             (events db) live)
      db0.
Proof.
  intros live reps db0. unfold Database.update_replica_offset.
  fold live. cbn [replicas with_wait_triggers]. fold reps. fold db0.
  change (wait_triggers db0) with live.
  rewrite <- (with_events_eta db0) at 1.
  by rewrite (fold_events_db
    (fun d t => wt_num_replicas t
                <=? Database.replication_count_acks_by_offset (wt_master_offset t) d)
    (fun t => wt_num_replicas t
              <=? Database.replication_count_acks_by_offset (wt_master_offset t) db0)).
Qed.


(** X19.  [update_replica_offset connection offset] overwrites the offset
    of every replica registered under the port of the connection and of no
    other, keeps the list of replicas in order, and sets the event of a
    listed [WAIT] trigger whose number of replicas is reached by the count
    taken after the update; no other event changes. *)
Theorem ack_updates_offsets_and_fires (conn offset : Z) (db : DB) (e : Event.t) :
  let db' := Database.update_replica_offset conn offset db in
  replicas db'
    = map (fun r => if conn =? port r then update_offset offset r else r) (replicas db)
  /\ map port (replicas db') = map port (replicas db)
  /\ length (events db') = length (events db)
  /\ (Event.is_set e (events db') = true
      <-> Event.is_set e (events db) = true
          \/ ((e < length (events db))%nat
              /\ exists t, t ∈ wait_triggers db /\ wt_event t = e
                   /\ wt_num_replicas t
                      <= Database.replication_count_acks_by_offset
                           (wt_master_offset t) db')).
Proof.
  intros db'. subst db'. rewrite update_replica_offset_eq.
  cbn [replicas events with_events with_replicas with_wait_triggers].
  split; [done|]. split.
  { rewrite map_map. apply map_ext. intros r. by destruct (conn =? port r). }
  set (reps := map _ (replicas db)).
  set (live := List.filter _ (wait_triggers db)).
  set (db0 := with_replicas reps (with_wait_triggers live db)).
  assert (Hcount : forall h o, Database.replication_count_acks_by_offset o (with_events h db0)
                   = Database.replication_count_acks_by_offset o db0) by done.
  pose proof (fold_set_events
    (fun t => wt_num_replicas t
              <=? Database.replication_count_acks_by_offset (wt_master_offset t) db0)
    wt_event live (events db) e) as [Hlen Hiff].
  split; [exact Hlen|]. rewrite Hiff. clear Hiff Hlen.
  split.
  - intros [?|[? (t & Ht & ? & HP)]]; [by left|]. right. split; [done|].
    exists t. apply list_elem_of_In, filter_In in Ht as [Ht _].
    rewrite <- list_elem_of_In in Ht. rewrite Hcount. split; [done|]. split; [done|].
    by apply Z.leb_le.
  - intros [?|[? (t & Ht & Hev & HP)]]; [by left|].
    destruct (Event.is_set e (events db)) eqn:Hset; [by left|].
    right. split; [done|]. exists t. rewrite Hcount in HP. split; [|split; [done|by apply Z.leb_le]].
    apply list_elem_of_In, filter_In. split; [by apply list_elem_of_In|].
    by rewrite Hev, Hset.
Qed.


(** X20.  The count of acknowledgements lies between 0 and the number of
    replicas, and does not grow when the offset asked for grows. *)
Theorem count_acks_bounds (o o' : Z) (db : DB) :
  0 <= Database.replication_count_acks_by_offset o db <= Z.of_nat (length (replicas db))
  /\ (o <= o' ->
      Database.replication_count_acks_by_offset o' db
      <= Database.replication_count_acks_by_offset o db).
Proof.
  unfold Database.replication_count_acks_by_offset. split.
  - split; [lia|]. apply inj_le.
    induction (replicas db) as [|r l IH]; simpl; [done|].
    destruct (o <=? replication_offset r); simpl; lia.
  - intros Ho. apply inj_le.
    induction (replicas db) as [|r l IH]; simpl; [done|].
    destruct (Z.leb_spec o' (replication_offset r)); destruct (Z.leb_spec o (replication_offset r));
      simpl; lia.
Qed.


(** X21.  [WAIT n timeout] on a master where at least [n] replicas have
    acknowledged the current offset: the count is answered at once, and
    nothing is sent, registered or awaited. *)
Theorem wait_fast_path (verb a c : string) (n t : Z) (db : DB) :
  role db = master ->
  Py.int a = Ok n -> Py.int c = Ok t ->
  n <= Database.replication_count_acks_by_offset (master_repl_offset db) db ->
  Command.respond_wait [verb; a; c] db
  = (db, Ok (Command.Return (Some (Resp.integer
       (Database.replication_count_acks_by_offset (master_repl_offset db) db))))).
Proof.
  intros Hrole Ha Hc Hcount.
  unfold Command.respond_wait, bindM, gets, lift, modify, retM.
  rewrite Hrole. cbn [drop]. rewrite Ha, Hc. cbn [mbind result_bind].
  destruct (Z.leb_spec n
    (Database.replication_count_acks_by_offset (master_repl_offset db) db)); [done|lia].
Qed.


(** X21 at [WAIT 0 100] on a master without replicas. *)
Lemma wait_fast_path_witness :
  Command.respond_wait ["WAIT"; "0"; "100"] Run.master0
  = (Run.master0, Ok (Command.Return (Some (Resp.integer
       (Database.replication_count_acks_by_offset
          (master_repl_offset Run.master0) Run.master0))))).
Proof.
  apply (wait_fast_path "WAIT" "0" "100" 0 100 Run.master0).
  - reflexivity.
  - reflexivity.
  - reflexivity.
  - vm_compute. discriminate.
Defined.

(** X22.  [WAIT] on a master that has propagated nothing (its offset is
    0): the command does not wait and sends no [GETACK], whatever the
    number of replicas asked for; it answers the count of replicas at the
    offset. *)
Theorem wait_without_writes_never_blocks (verb a c : string) (n t : Z) (db : DB) :
  role db = master ->
  Py.int a = Ok n -> Py.int c = Ok t ->
  master_repl_offset db <= 0 ->
  exists db',
    Command.respond_wait [verb; a; c] db
    = (db', Ok (Command.Return (Some (Resp.integer
         (Database.replication_count_acks_by_offset (master_repl_offset db) db)))))
    /\ master_repl_offset db' = master_repl_offset db
    /\ sent db' = sent db.
Proof.
  intros Hrole Ha Hc Hoff.
  unfold Command.respond_wait, bindM, gets, lift, modify, retM.
  rewrite Hrole. cbn [drop]. rewrite Ha, Hc. cbn [mbind result_bind].
  destruct (n <=? _); [by eexists|].
  cbn [Event.new fst snd].
  cbn [master_repl_offset with_events with_wait_triggers].
  destruct (Z.ltb_spec 0 (master_repl_offset db)); [lia|].
  eexists. split; [reflexivity|]. done.
Qed.


(** X22 at [WAIT 1 100] on a master that has just started. *)
Lemma wait_without_writes_witness :
  exists db',
    Command.respond_wait ["WAIT"; "1"; "100"] Run.master0
    = (db', Ok (Command.Return (Some (Resp.integer
         (Database.replication_count_acks_by_offset
            (master_repl_offset Run.master0) Run.master0)))))
    /\ master_repl_offset db' = master_repl_offset Run.master0
    /\ sent db' = sent Run.master0.
Proof.
  apply (wait_without_writes_never_blocks "WAIT" "1" "100" 1 100 Run.master0).
  - reflexivity.
  - reflexivity.
  - reflexivity.
  - vm_compute. discriminate.
Defined.



(* ===================================================================== *)
(** * The RDB loader on the files it supports *)
(* ===================================================================== *)

Lemma len_byte_to_Z s :
  short s -> Z.of_N (Byte.to_N (len_byte s)) = Z.of_nat (length (encode s)).
Proof.
  unfold short, len_byte. intros Hs.
  destruct (Byte.of_nat (length (encode s))) as [y|] eqn:E.
  - apply Byte.to_of_nat in E. cbn [default from_option]. unfold Datatypes.id.
    rewrite Byte.to_N_via_nat, E. lia.
  - apply Byte.of_nat_None_iff in E. lia.
Qed.

Lemma read_take_drop n p :
  Persistence.read n p = (take n (Persistence.file p),
                          Persistence.with_file (drop n (Persistence.file p)) p).
Proof. reflexivity. Qed.

Lemma read_string_short (p : Persistence.t) (x : byte) (s : string) (rest : bytes) :
  Persistence.file p = x :: encode s ++ rest ->
  Z.of_N (Byte.to_N x) = Z.of_nat (length (encode s)) ->
  short s ->
  Persistence._read_string p = Ok (PStr s, Persistence.with_file rest p).
Proof.
  intros Hfile Hx Hs. unfold short in Hs.
  unfold Persistence._read_string, Persistence._read_length. rewrite read_take_drop, Hfile.
  rewrite firstn_cons, take_0, skipn_cons, drop_0.
  cbn [Persistence.unpack_B mbind result_bind].
  rewrite Hx.
  assert (Z.shiftr (Z.of_nat (length (encode s))) 6 = 0) as ->.
  { rewrite Z.shiftr_div_pow2 by lia. apply Z.div_small. lia. }
  cbn [Z.eqb mbind result_bind]. rewrite read_take_drop.
  cbn [Persistence.file Persistence.with_file]. rewrite Nat2Z.id.
  rewrite take_app_length, drop_app_length, decode_encode. reflexivity.
Qed.

Lemma read_rdb_string s rest p :
  short s -> Persistence.file p = rdb_string s ++ rest ->
  Persistence._read_string p = Ok (PStr s, Persistence.with_file rest p).
Proof.
  intros Hs Hfile.
  apply (read_string_short p (len_byte s) s rest); [done| |done].
  by apply len_byte_to_Z.
Qed.

(** X24.  A length byte whose top two bits are 11 announces an integer of
    8 bits whatever its six low bits are: [_read_string] answers the
    following byte as a number between 0 and 255, not as a string, and
    has consumed two bytes. *)
Theorem rdb_special_encoding_reads_one_byte (p : Persistence.t) (x y : byte) (rest : bytes) :
  Persistence.file p = x :: y :: rest ->
  crumb x = 3 ->
  Persistence._read_length p = Ok (Persistence.L8bit, Persistence.with_file (y :: rest) p)
  /\ Persistence._read_string p
     = Ok (PInt (Z.of_N (Byte.to_N y)), Persistence.with_file rest p)
  /\ 0 <= Z.of_N (Byte.to_N y) <= 255.
Proof.
  intros Hfile Hx. unfold crumb in Hx.
  assert (HL : Persistence._read_length p
               = Ok (Persistence.L8bit, Persistence.with_file (y :: rest) p)).
  { unfold Persistence._read_length. rewrite read_take_drop, Hfile.
    rewrite firstn_cons, take_0, skipn_cons, drop_0.
    cbn [Persistence.unpack_B mbind result_bind]. rewrite Hx. reflexivity. }
  split; [exact HL|]. split.
  - unfold Persistence._read_string. rewrite HL. reflexivity.
  - pose proof (Byte.to_N_bounded y). lia.
Qed.

(** X24 at the bytes C0 2A. *)
Lemma rdb_special_encoding_witness :
  let p := {| Persistence.file := [xc0; x2a; xff]; Persistence.aux := [];
              Persistence.checksum := None; Persistence.db_size := None;
              Persistence.expiry_size := None; Persistence.db_number := None;
              Persistence.version := 11; Persistence.store := [] |} in
  Persistence._read_length p
    = Ok (Persistence.L8bit, Persistence.with_file [x2a; xff] p)
  /\ Persistence._read_string p = Ok (PInt 42, Persistence.with_file [xff] p)
  /\ 0 <= 42 <= 255.
Proof.
  intros p. apply (rdb_special_encoding_reads_one_byte p xc0 x2a [xff]).
  - reflexivity.
  - reflexivity.
Defined.

Lemma parse_next_record (p : Persistence.t) (kv : string * string) (rest : bytes) :
  short kv.1 -> short kv.2 ->
  Persistence.file p = rdb_record kv ++ rest ->
  exists p', Persistence._parse_next p = Ok (false, p')
    /\ Persistence.file p' = rest
    /\ Persistence.store p' = Dict.set (PStr kv.1) (PStr kv.2, None) (Persistence.store p).
Proof.
  intros Hk Hv Hfile.
  unfold Persistence._parse_next. rewrite read_take_drop, Hfile.
  unfold rdb_record. cbn [app]. rewrite firstn_cons, take_0, skipn_cons, drop_0.
  unfold Persistence._set_kv_pair.
  rewrite (read_rdb_string kv.1 (rdb_string kv.2 ++ rest)) by (done || by rewrite <- app_assoc).
  cbn [mbind result_bind].
  rewrite (read_rdb_string kv.2 rest) by done.
  cbn [mbind result_bind]. eexists. repeat split.
Qed.

Lemma parse_loop_records (pairs : list (string * string)) (checksum : bytes) :
  Forall (fun kv => short kv.1 /\ short kv.2) pairs ->
  forall (p : Persistence.t) (fuel : nat),
    Persistence.file p = mjoin (map rdb_record pairs) ++ [xff] ++ checksum ->
    (length pairs < fuel)%nat ->
    exists p', Persistence.parse_loop fuel p = Some (Ok p')
      /\ Persistence.store p'
         = foldl (fun st kv => Dict.set (PStr kv.1) (PStr kv.2, None) st)
                 (Persistence.store p) pairs
      /\ Persistence.checksum p' = Some (take 8 checksum)
      /\ Persistence.file p' = drop 8 checksum.
Proof.
  induction 1 as [|kv pairs [Hk Hv] _ IH]; intros p fuel Hfile Hfuel.
  - destruct fuel as [|fuel]; [simpl in Hfuel; lia|].
    cbn [Persistence.parse_loop]. unfold Persistence._parse_next.
    rewrite read_take_drop, Hfile. cbn [map mjoin list_join app].
    rewrite firstn_cons, take_0, skipn_cons, drop_0.
    eexists. split; [reflexivity|]. repeat split.
  - destruct fuel as [|fuel]; [simpl in Hfuel; lia|].
    cbn [map] in Hfile. rewrite mjoin_cons, <- app_assoc in Hfile.
    destruct (parse_next_record p kv _ Hk Hv Hfile) as (p1 & Hnext & Hf1 & Hs1).
    cbn [Persistence.parse_loop]. rewrite Hnext.
    destruct (IH p1 fuel Hf1) as (p' & Hloop & Hs' & Hc' & Hf'); [simpl in Hfuel; lia|].
    exists p'. split; [exact Hloop|]. cbn [foldl]. rewrite <- Hs1. done.
Qed.

Lemma verify_magic_ok (p : Persistence.t) (rest : bytes) :
  Persistence.file p = b "REDIS" ++ rest ->
  Persistence._verify_magic p = Ok (Persistence.with_file rest p).
Proof.
  intros Hfile. unfold Persistence._verify_magic. rewrite read_take_drop, Hfile.
  reflexivity.
Qed.

Lemma set_version_ok (p : Persistence.t) (version : string) (n : Z) (rest : bytes) :
  Persistence.file p = encode version ++ rest ->
  length (encode version) = 4%nat ->
  Py.int version = Ok n ->
  exists p', Persistence._set_version p = Ok p'
    /\ Persistence.file p' = rest
    /\ Persistence.store p' = Persistence.store p.
Proof.
  intros Hfile Hlen Hint. unfold Persistence._set_version.
  rewrite read_take_drop, Hfile, <- Hlen, take_app_length, drop_app_length.
  rewrite decode_encode. cbn [mbind result_bind]. rewrite Hint.
  cbn [mbind result_bind]. eexists. repeat split.
Qed.

(** X25.  A file made of the magic, a version of four characters that
    [int] reads, key-value records of type 0 whose strings are shorter
    than 64 bytes, the opcode [0xFF] and a checksum is loaded to its end:
    the store holds the pairs as if each had been [set] in turn without
    expiry, a later record of a key replacing the earlier one in place.
    This holds whatever the bytes of the checksum are. *)
Theorem rdb_file_is_loaded (fuel : nat) (version : string) (n : Z)
    (pairs : list (string * string)) (checksum : bytes) :
  length (encode version) = 4%nat ->
  Py.int version = Ok n ->
  Forall (fun kv => short kv.1 /\ short kv.2) pairs ->
  (length pairs < fuel)%nat ->
  Database.init_store fuel (Some (rdb_file (encode version) pairs checksum))
  = Some (Ok (store_of pairs)).
Proof.
  intros Hlen Hint Hshort Hfuel.
  unfold Database.init_store, Persistence.init, rdb_file.
  match goal with
  | |- context [Persistence._verify_magic ?p] =>
      rewrite (verify_magic_ok p
        (encode version ++ mjoin (map rdb_record pairs) ++ [xff] ++ checksum) eq_refl)
  end.
  match goal with
  | |- context [Persistence._set_version ?p] =>
      destruct (set_version_ok p version n
        (mjoin (map rdb_record pairs) ++ [xff] ++ checksum) eq_refl Hlen Hint)
        as (p1 & -> & Hf1 & Hs1)
  end.
  destruct (parse_loop_records pairs checksum Hshort p1 fuel Hf1 Hfuel)
    as (p' & -> & Hs & _).
  rewrite Hs, Hs1. reflexivity.
Qed.

(** X25 at a file of version 0011 that holds [k = v] and [k = w]. *)
Lemma rdb_file_is_loaded_witness :
  Database.init_store 3
    (Some (rdb_file (encode "0011") [("k", "v"); ("k", "w")]%string
             [x01; x02; x03; x04; x05; x06; x07; x08]))
  = Some (Ok (store_of [("k", "v"); ("k", "w")]%string)).
Proof.
  apply (rdb_file_is_loaded 3 "0011" 11 [("k", "v"); ("k", "w")]%string).
  - reflexivity.
  - reflexivity.
  - repeat constructor; unfold short; simpl; lia.
  - simpl. lia.
Defined.

(** At the end of the file [read(1)] is empty, no case matches and the
    loop goes on. *)
Lemma parse_loop_at_end (p : Persistence.t) (fuel : nat) :
  Persistence.file p = [] -> Persistence.parse_loop fuel p = None.
Proof.
  intros Hfile.
  assert (Hnext : Persistence._parse_next p = Ok (false, p)).
  { unfold Persistence._parse_next. rewrite read_take_drop, Hfile.
    cbn [firstn skipn]. change (take 1 []) with (@nil byte). cbv iota.
    f_equal. f_equal. destruct p. cbn in *. by subst. }
  induction fuel as [|fuel IH]; [reflexivity|].
  cbn [Persistence.parse_loop]. by rewrite Hnext.
Qed.

Lemma parse_loop_no_end (pairs : list (string * string)) :
  Forall (fun kv => short kv.1 /\ short kv.2) pairs ->
  forall (p : Persistence.t) (fuel : nat),
    Persistence.file p = mjoin (map rdb_record pairs) ->
    Persistence.parse_loop fuel p = None.
Proof.
  induction 1 as [|kv pairs [Hk Hv] _ IH]; intros p fuel Hfile.
  - by apply parse_loop_at_end.
  - destruct fuel as [|fuel]; [reflexivity|].
    cbn [map] in Hfile. rewrite mjoin_cons in Hfile.
    destruct (parse_next_record p kv _ Hk Hv Hfile) as (p1 & Hnext & Hf1 & _).
    cbn [Persistence.parse_loop]. rewrite Hnext. by apply IH.
Qed.

(** X26.  The same file cut before the opcode [0xFF]: the loader reads
    the records, then reads the end of the file for ever; no number of
    turns of its loop ends it, and no exception is raised. *)
Theorem rdb_without_end_never_loads (fuel : nat) (version : string) (n : Z)
    (pairs : list (string * string)) :
  length (encode version) = 4%nat ->
  Py.int version = Ok n ->
  Forall (fun kv => short kv.1 /\ short kv.2) pairs ->
  Database.init_store fuel
    (Some (b "REDIS" ++ encode version ++ mjoin (map rdb_record pairs)))
  = None.
Proof.
  intros Hlen Hint Hshort.
  unfold Database.init_store, Persistence.init.
  match goal with
  | |- context [Persistence._verify_magic ?p] =>
      rewrite (verify_magic_ok p
        (encode version ++ mjoin (map rdb_record pairs)) eq_refl)
  end.
  match goal with
  | |- context [Persistence._set_version ?p] =>
      destruct (set_version_ok p version n
        (mjoin (map rdb_record pairs)) eq_refl Hlen Hint)
        as (p1 & -> & Hf1 & Hs1)
  end.
  by rewrite (parse_loop_no_end pairs Hshort p1 fuel Hf1).
Qed.

(** X26 at the file that holds the magic, the version and [k = v]. *)
Lemma rdb_without_end_witness :
  Database.init_store 1000
    (Some (b "REDIS" ++ encode "0011" ++ mjoin (map rdb_record [("k", "v")]%string)))
  = None.
Proof.
  apply (rdb_without_end_never_loads 1000 "0011" 11 [("k", "v")]%string).
  - reflexivity.
  - reflexivity.
  - repeat constructor; unfold short; simpl; lia.
Defined.

(** X27.  A record with an expiry: the opcode [0xFC], eight bytes, one
    byte of value type that is skipped whatever it is, then the key and
    the value.  The pair is stored with the eight bytes read as an
    unsigned little-endian number, below 2^64, as its expiry. *)
Theorem rdb_expiring_record (p : Persistence.t) (quadword : bytes) (type : byte)
    (key value : string) (rest : bytes) :
  length quadword = 8%nat ->
  short key -> short value ->
  Persistence.file p
    = xfc :: quadword ++ type :: rdb_string key ++ rdb_string value ++ rest ->
  exists p' timestamp,
    Persistence._parse_next p = Ok (false, p')
    /\ Persistence.file p' = rest
    /\ Persistence.store p'
       = Dict.set (PStr key) (PStr value, Some timestamp) (Persistence.store p)
    /\ timestamp
       = foldr (fun x acc => Z.of_N (Byte.to_N x) + 256 * acc) 0 quadword
    /\ 0 <= timestamp < 2 ^ 64.
Proof.
  intros Hlen Hk Hv Hfile.
  unfold Persistence._parse_next. rewrite read_take_drop, Hfile.
  rewrite firstn_cons, take_0, skipn_cons, drop_0.
  unfold Persistence._set_kv_pair_px. rewrite read_take_drop.
  cbn [Persistence.file Persistence.with_file].
  rewrite <- Hlen, take_app_length, drop_app_length.
  unfold Persistence.unpack_Q. rewrite decide_True by done.
  cbn [mbind result_bind]. rewrite read_take_drop.
  cbn [Persistence.file Persistence.with_file].
  rewrite skipn_cons, drop_0.
  unfold Persistence._set_kv_pair.
  rewrite (read_rdb_string key (rdb_string value ++ rest)) by done.
  cbn [mbind result_bind].
  rewrite (read_rdb_string value rest) by done.
  cbn [mbind result_bind]. eexists _, _.
  split; [reflexivity|]. split; [reflexivity|]. split; [reflexivity|].
  split; [reflexivity|].
  assert (H : forall l : bytes,
    0 <= foldr (fun x acc => Z.of_N (Byte.to_N x) + 256 * acc) 0 l
       < 256 ^ Z.of_nat (length l)).
  { induction l as [|x l IH]; [simpl; lia|].
    cbn [foldr length]. rewrite Nat2Z.inj_succ, Z.pow_succ_r by lia.
    pose proof (Byte.to_N_bounded x). lia. }
  specialize (H quadword). rewrite Hlen in H. exact H.
Qed.

(** X27 at a record of [k = v] that expires at 258. *)
Lemma rdb_expiring_record_witness :
  let p := {| Persistence.file :=
                xfc :: [x02; x01; x00; x00; x00; x00; x00; x00]
                    ++ x07 :: rdb_string "k" ++ rdb_string "v" ++ [xff];
              Persistence.aux := [];
              Persistence.checksum := None; Persistence.db_size := None;
              Persistence.expiry_size := None; Persistence.db_number := None;
              Persistence.version := 11; Persistence.store := [] |} in
  exists p' timestamp,
    Persistence._parse_next p = Ok (false, p')
    /\ Persistence.file p' = [xff]
    /\ Persistence.store p'
       = Dict.set (PStr "k") (PStr "v", Some timestamp) (Persistence.store p)
    /\ timestamp
       = foldr (fun x acc => Z.of_N (Byte.to_N x) + 256 * acc) 0
           [x02; x01; x00; x00; x00; x00; x00; x00]
    /\ 0 <= timestamp < 2 ^ 64.
Proof.
  intros p.
  apply (rdb_expiring_record p [x02; x01; x00; x00; x00; x00; x00; x00] x07
           "k" "v" [xff]).
  - reflexivity.
  - unfold short. simpl. lia.
  - unfold short. simpl. lia.
  - reflexivity.
Defined.

(* ===================================================================== *)
(** * Connections: a buffer on a replica, and the handshake *)
(* ===================================================================== *)

(** What [execute] does to the offset of a replica, for every way in which
    it can end. *)
Lemma execute_replica_step (now : Z) (c : Command.t) (db db' : DB)
    (r : result (option (Event.t * Command.cont))) :
  role db = slave ->
  Command.execute now c db = (db', r) ->
  match r with
  | Ok None =>
      role db' = slave
      /\ slave_repl_offset db'
         = slave_repl_offset db + Z.of_nat (length (Command._pack (Command.array c)))
  | Ok (Some _) => False
  | Raise _ => True
  end.
Proof.
  intros Hrole. unfold Command.execute, bindM.
  destruct (Command._respond now c db) as [db1 [st|e]] eqn:R; [|by intros [= <- <-]].
  destruct (respond_on_replica now c _ _ _ Hrole R) as [[Hr Ho] Hret].
  destruct (Hret st eq_refl) as [response ->].
  unfold Command.finish, bindM, gets, modify, retM. rewrite Hr, Hrole.
  destruct response as [[|x data]|]; intros [= <- <-]; cbn; by rewrite ?Hr, ?Ho.
Qed.

Lemma run_commands_on_replica (clock : nat -> Z) (conn : Z)
    (frames : list (list string)) :
  forall (i : nat) (db db' : DB) (out : Server.handled),
  role db = slave ->
  Server.run_commands clock i (map (command_of conn) frames) Resp.Finished db
  = (db', out) ->
  (out = Server.Handled
   /\ slave_repl_offset db'
      = slave_repl_offset db
        + Z.of_nat (length (mjoin (map (fun items => Resp.array (map istr items)) frames))))
  \/ exists e, out = Server.Failed e.
Proof.
  induction frames as [|items frames IH]; intros i db db' out Hrole.
  - cbn. intros [= <- <-]. left. split; [done|lia].
  - cbn [map Server.run_commands].
    destruct (Command.execute (clock i) (command_of conn items) db)
      as [db1 r] eqn:E.
    pose proof (execute_replica_step _ _ _ _ _ Hrole E) as H.
    destruct r as [[[e k]|]|e].
    + done.
    + destruct H as [Hr1 Ho1]. intros Hrun.
      destruct (IH _ _ _ _ Hr1 Hrun) as [[-> Ho]|[e ->]]; [left|right; by eexists].
      split; [done|]. rewrite Ho, Ho1, mjoin_cons, length_app.
      unfold command_of. cbn [Command.array]. rewrite pack_of_frame. lia.
    + intros [= <- <-]. right. by eexists.
Qed.

Lemma parse_frames_ok (conn : Z) (frames : list (list string)) (fuel : nat) :
  Forall well_formed frames ->
  (length frames < fuel)%nat ->
  Resp.parse (Command.parse conn) fuel
    (mjoin (map (fun items => Resp.array (map istr items)) frames))
  = (map (command_of conn) frames, Resp.Finished).
Proof.
  intros Hwf. revert fuel.
  induction Hwf as [|items frames Hitems _ IH]; intros fuel Hfuel.
  - destruct fuel; [simpl in Hfuel; lia|reflexivity].
  - destruct fuel as [|fuel]; [simpl in Hfuel; lia|].
    cbn [map]. rewrite mjoin_cons, parse_array_step by done.
    rewrite IH by (simpl in Hfuel; lia). reflexivity.
Qed.

(** X28.  On a replica, a buffer of well-formed frames handled by
    [_handle_incoming], from the master or from any client: the loop never
    stays suspended in a command; it either leaves by an exception, or
    reaches the end of the buffer, and then [slave_repl_offset] has grown
    by the length of the whole buffer. *)
Theorem replica_counts_whole_buffer (fuel : nat) (clock : nat -> Z) (conn : Z)
    (frames : list (list string)) (db db' : DB) (out : Server.handled) :
  role db = slave ->
  Forall well_formed frames ->
  (length frames < fuel)%nat ->
  let buffer := mjoin (map (fun items => Resp.array (map istr items)) frames) in
  Server._handle_incoming fuel clock buffer conn db = (db', out) ->
  (out = Server.Handled
   /\ slave_repl_offset db' = slave_repl_offset db + Z.of_nat (length buffer))
  \/ exists e, out = Server.Failed e.
Proof.
  intros Hrole Hwf Hfuel buffer. unfold Server._handle_incoming. subst buffer.
  rewrite parse_frames_ok by done.
  by apply run_commands_on_replica.
Qed.

(** X28 at a buffer that holds [SET k v] and [REPLCONF GETACK *]. *)
Lemma replica_counts_whole_buffer_witness :
  let buffer := mjoin (map (fun items => Resp.array (map istr items))
                         [["SET"; "k"; "v"]; ["REPLCONF"; "GETACK"; "*"]]) in
  let r := Server._handle_incoming 3 (fun _ => 0) buffer 6379 Run.replica0 in
  (r.2 = Server.Handled
   /\ slave_repl_offset r.1
      = slave_repl_offset Run.replica0 + Z.of_nat (length buffer))
  \/ exists e, r.2 = Server.Failed e.
Proof.
  intros buffer r.
  apply (replica_counts_whole_buffer 3 (fun _ => 0) 6379
           [["SET"; "k"; "v"]; ["REPLCONF"; "GETACK"; "*"]] Run.replica0 r.1 r.2).
  - reflexivity.
  - repeat constructor; discriminate.
  - simpl. lia.
  - apply surjective_pairing.
Defined.

Lemma bulk_string_str (v : pyval) :
  v <> PNone -> Resp.bulk_string v = Resp.bulk_string (PStr (str v)).
Proof. by destruct v. Qed.

Lemma handle_one_frame (fuel : nat) (clock : nat -> Z) (conn : Z)
    (items : list string) (db : DB) :
  well_formed items -> (2 <= fuel)%nat ->
  Server._handle_incoming fuel clock (Resp.array (map istr items)) conn db
  = match Command.execute (clock 0%nat) (command_of conn items) db with
    | (db', Ok None) => (db', Server.Handled)
    | (db', Ok (Some (e, k))) =>
        (db', Server.Waiting e (command_of conn items) k [] Resp.Finished)
    | (db', Raise e) => (db', Server.Failed e)
    end.
Proof.
  intros Hwf Hfuel. unfold Server._handle_incoming.
  destruct fuel as [|[|fuel]]; [lia|lia|].
  rewrite <- (app_nil_r (Resp.array _)), parse_array_step by done.
  cbn [Resp.parse Server.run_commands].
  destruct (Command.execute _ _ db) as [db' [[[e k]|]|e]]; reflexivity.
Qed.

Lemma send_command_ok (fuel : nat) (clock : nat -> Z) (strings : list pyval)
    (reply : bytes) (host : string) (mport : Z) (db : DB) :
  replicaof db = Some (host, mport) ->
  Resp.parse (Command.parse mport) fuel reply = ([], Resp.Finished) ->
  Server._send_command fuel clock strings reply db
  = (Database.write mport (Resp.array (map IVal strings)) db, Server.Handled).
Proof.
  intros Hof Hparse. unfold Server._send_command, Server._handle_incoming.
  rewrite Hof, Hparse. reflexivity.
Qed.

Lemma handle_connection_frame (fuel : nat) (clock : nat -> nat -> Z) (conn : Z)
    (items : list item) (reads : list bytes) (db : DB) :
  Server._handle_connection fuel clock (Resp.array items :: reads) conn db
  = match Server._handle_incoming fuel (clock 0%nat) (Resp.array items) conn db with
    | (db', Server.Handled) =>
        Server._handle_connection fuel (fun i => clock (S i)) reads conn db'
    | (db', other) => (db', other)
    end.
Proof.
  destruct (array_starts_with_star items) as [tl ->]. reflexivity.
Qed.

Lemma execute_on_master (now : Z) (c : Command.t) (db db1 : DB) (reply : bytes) :
  Command._respond now c db = (db1, Ok (Command.Return (Some reply))) ->
  role db1 = master ->
  reply <> [] ->
  Command.execute now c db = (Database.write (Command.connection c) reply db1, Ok None).
Proof.
  intros Hresp Hrole Hne. unfold Command.execute, bindM. rewrite Hresp.
  unfold Command.finish, bindM, gets, modify, retM. rewrite Hrole.
  destruct reply; [done|reflexivity].
Qed.

(** X29.  The handshake against a master, with no propagation pending
    and nothing else running in between.  The master, handling the four
    frames of [_handshake] as four reads of one connection, answers
    [+PONG], [+OK], [+OK] and the [FULLRESYNC] line with the RDB file,
    registers the connection as a replica at offset 0 and does not move its
    own offset.  The replica, reading these four answers, sends the four
    frames to the port of [replicaof] and ends the handshake without an
    exception, with its offset and its store as they were: the RDB file it
    receives is not loaded. *)
Theorem handshake_registers_replica (fuel : nat) (clock : nat -> nat -> Z)
    (clock' : nat -> Z) (conn mport : Z) (host : string) (port : pyval) (m r : DB) :
  role m = master ->
  tasks m = [] ->
  no_cr (encode (master_replid m)) = true ->
  role r = slave ->
  replicaof r = Some (host, mport) ->
  port <> PNone ->
  isascii (str port) = true ->
  (3 <= fuel)%nat ->
  let frames := map (fun strings => Resp.array (map IVal strings))
                    (Server.handshake_commands port) in
  let replies := [Resp.simple_string "PONG"; Resp.simple_string "OK";
                  Resp.simple_string "OK"; fullresync m] in
  exists m' r',
    Server._handle_connection fuel clock frames conn m = (m', Server.Handled)
    /\ sent m' = sent m ++ map (pair conn) replies
    /\ replicas m' = replicas m ++ [{| port := conn; replication_offset := 0 |}]
    /\ master_repl_offset m' = master_repl_offset m
    /\ Server._handshake fuel clock' port replies r = (r', Server.Handled)
    /\ sent r' = sent r ++ map (pair mport) frames
    /\ slave_repl_offset r' = slave_repl_offset r
    /\ store r' = store r.
Proof.
  intros Hrole _ Hid _ Hof Hport Hascii Hfuel frames replies.
  assert (Hline : forall s, no_cr (encode s) = true ->
            Resp.parse (Command.parse mport) fuel (Resp.simple_string s)
            = ([], Resp.Finished)).
  { intros s Hs. rewrite simple_string_plus_line.
    destruct fuel as [|[|fuel]]; [lia|lia|].
    rewrite <- (app_nil_r (plus_line _)), parse_plus_line by done. reflexivity. }
  set (m1 := Database.write conn (Resp.simple_string "PONG") m).
  set (m2 := Database.write conn (Resp.simple_string "OK") m1).
  set (m3 := Database.write conn (Resp.simple_string "OK") m2).
  set (m4 := Database.write conn (fullresync m)
               (Database.register_replica
                  {| port := conn; replication_offset := 0 |} m3)).
  exists m4.
  eexists. split; [|split; [|split; [|split; [|split]]]]; cycle 4.
  - unfold Server._handshake, Server.handshake_commands, replies.
    cbn [Server.send_all head tail default from_option]. unfold Datatypes.id.
    rewrite (send_command_ok _ _ _ _ host mport) by (done || by apply Hline).
    rewrite (send_command_ok _ _ _ _ host mport) by (done || by apply Hline).
    rewrite (send_command_ok _ _ _ _ host mport) by (done || by apply Hline).
    rewrite (send_command_ok _ _ _ _ host mport)
      by (done || by apply parse_fullresync).
    reflexivity.
  - cbn. rewrite <- !app_assoc. split; [reflexivity|]. done.
  - subst frames. unfold Server.handshake_commands. cbn [map].
    change [IVal (PStr "ping")] with (map istr ["ping"]).
    change [IVal (PStr "REPLCONF"); IVal (PStr "capa"); IVal (PStr "psync2")]
      with (map istr ["REPLCONF"; "capa"; "psync2"]).
    change [IVal (PStr "PSYNC"); IVal (PStr "?"); IVal (PStr "-1")]
      with (map istr ["PSYNC"; "?"; "-1"]).
    replace (Resp.array [IVal (PStr "REPLCONF"); IVal (PStr "listening-port"); IVal port])
      with (Resp.array (map istr ["REPLCONF"; "listening-port"; str port]))
      by (unfold Resp.array; cbn [map Resp.array_item istr];
          by rewrite (bulk_string_str port Hport)).
    rewrite handle_connection_frame, handle_one_frame;
      [|split; [done|by repeat constructor]|lia].
    change (command_of conn ["ping"])
      with {| Command.name := Command.PING; Command.array := ["ping"];
              Command.connection := conn |}.
    rewrite (execute_on_master _ _ m m (Resp.simple_string "PONG")); [|
      unfold Command._respond, Command.respond_ping, bindM, gets, retM;
      cbn [Command.name]; by rewrite Hrole|done|done].
    rewrite handle_connection_frame, handle_one_frame;
      [|split; [done|by repeat constructor]|lia].
    change (command_of conn ["REPLCONF"; "listening-port"; str port])
      with {| Command.name := Command.REPLCONF;
              Command.array := ["REPLCONF"; "listening-port"; str port];
              Command.connection := conn |}.
    rewrite (execute_on_master _ _ _ m1 (Resp.simple_string "OK"));
      [|reflexivity|done|done].
    rewrite handle_connection_frame, handle_one_frame;
      [|split; [done|by repeat constructor]|lia].
    change (command_of conn ["REPLCONF"; "capa"; "psync2"])
      with {| Command.name := Command.REPLCONF;
              Command.array := ["REPLCONF"; "capa"; "psync2"];
              Command.connection := conn |}.
    rewrite (execute_on_master _ _ _ m2 (Resp.simple_string "OK"));
      [|reflexivity|done|done].
    rewrite handle_connection_frame, handle_one_frame;
      [|split; [done|by repeat constructor]|lia].
    change (command_of conn ["PSYNC"; "?"; "-1"])
      with {| Command.name := Command.PSYNC; Command.array := ["PSYNC"; "?"; "-1"];
              Command.connection := conn |}.
    rewrite (execute_on_master _ _ _
               (Database.register_replica {| port := conn; replication_offset := 0 |} m3)
               (fullresync m)); [reflexivity| |done|].
    + unfold Command._respond. cbn [Command.name].
      unfold Command.respond_psync, bindM, gets, modify, retM, Command.master_attr.
      cbn. rewrite Hrole. cbn. rewrite Hrole. reflexivity.
    + unfold fullresync. rewrite simple_string_plus_line. done.
  - cbn. by rewrite <- !app_assoc.
  - reflexivity.
  - reflexivity.
Qed.

(** X29 for a replica that listens on 6380 and reaches a master that has
    just started from the port 50001. *)
Lemma handshake_registers_replica_witness :
  let frames := map (fun strings => Resp.array (map IVal strings))
                    (Server.handshake_commands (PInt 6380)) in
  let replies := [Resp.simple_string "PONG"; Resp.simple_string "OK";
                  Resp.simple_string "OK"; fullresync Run.master0] in
  exists m' r',
    Server._handle_connection 3 (fun _ _ => 0) frames 50001 Run.master0
      = (m', Server.Handled)
    /\ sent m' = sent Run.master0 ++ map (pair 50001) replies
    /\ replicas m' = replicas Run.master0
                      ++ [{| port := 50001; replication_offset := 0 |}]
    /\ master_repl_offset m' = master_repl_offset Run.master0
    /\ Server._handshake 3 (fun _ => 0) (PInt 6380) replies Run.replica0
       = (r', Server.Handled)
    /\ sent r' = sent Run.replica0 ++ map (pair 6379) frames
    /\ slave_repl_offset r' = slave_repl_offset Run.replica0
    /\ store r' = store Run.replica0.
Proof.
  intros frames replies.
  apply (handshake_registers_replica 3 (fun _ _ => 0) (fun _ => 0) 50001 6379
           "localhost" (PInt 6380) Run.master0 Run.replica0).
  - reflexivity.
  - reflexivity.
  - vm_compute. reflexivity.
  - reflexivity.
  - reflexivity.
  - discriminate.
  - reflexivity.
  - lia.
Defined.
